(** * Equipment-list expansion rule engine of gyrinx

    A shallow embedding of [gyrinx/content/models_/expansion.py]: the
    polymorphic expansion rules, the expansions that bundle them, the bulk
    query that selects the applicable expansions, and the aggregation of the
    equipment they unlock.  The relational store behind the Django models is
    a record of tables (lists of rows) with the collation that orders names;
    a queryset is the list of rows it selects, the loops whose result
    depends on the visiting order read their rows in the models' default
    ordering, and a Python exception is the [Raise] case of [result]. *)

From stdpp Require Import gmap strings list fin_maps.
From Stdlib Require Import ZArith.

Local Open Scope string_scope.

(** ** Exceptions *)

Inductive exn : Set :=
  | AttributeError        (* attribute access on [None] *)
  | NotImplementedError   (* [match] of the polymorphic base class *)
  | ValueError            (* [None] used as the value of a [contains] lookup *)
  | ValidationError.      (* raised by [clean] *)

Inductive result (A : Type) : Type :=
  | Ok (a : A)
  | Raise (e : exn).
Arguments Ok {A} a.
Arguments Raise {A} e.

#[global] Instance result_ret : MRet result := λ A a, Ok a.
#[global] Instance result_bind : MBind result := λ A B f m,
  match m with
  | Ok a => f a
  | Raise e => Raise e
  end.

Definition raises {A} (m : result A) (e : exn) : Prop := m = Raise e.

(** ** Rows of the content and list tables *)

(** Primary keys. *)
Abbreviation Id := positive.

Record ContentAttributeValue := {
  cav_id : Id;
  cav_attribute : Id;
}.

(** The through-row of [List.attributes]. *)
Record ListAttributeAssignment := {
  attribute_value : ContentAttributeValue;
  archived : bool;
}.

Record List_ := {
  content_house : Id;
  attribute_assignments : list ListAttributeAssignment;
}.

Record ListFighter := {
  content_fighter : Id;
  legacy_content_fighter : option Id;
  get_category : option string;
}.

Record ExpansionRuleInputs := {
  input_list : option List_;
  input_fighter : option ListFighter;
}.

Inductive RuleVariant :=
  | BaseRule
  | ByAttribute (attribute : Id) (attribute_values : list ContentAttributeValue)
  | ByHouse (house : Id)
  | ByFighterCategory (fighter_categories : list string).

Record ContentEquipmentListExpansionRule := {
  rule_id : Id;
  rule_variant : RuleVariant;
}.

Record ContentEquipmentListExpansion := {
  expansion_id : Id;
  name : string;
  rules : list Id;          (* the many-to-many relation, by rule id *)
}.

Record ContentWeaponProfile := {
  profile_id : Id;
  profile_equipment : Id;
}.

Record ContentEquipmentListExpansionItem := {
  expansion : Id;
  equipment : Id;
  weapon_profile : option ContentWeaponProfile;
  cost : option Z;
}.

Record ContentEquipment := {
  equipment_id : Id;
  equipment_name : string;
  cost_cast_int : Z;
}.

Record Store := {
  rule_table : list ContentEquipmentListExpansionRule;
  expansion_table : list ContentEquipmentListExpansion;
  item_table : list ContentEquipmentListExpansionItem;
  equipment_table : list ContentEquipment;
  (* the order in which the database sorts names: its collation *)
  name_le : string → string → bool;
}.

(** ** Queryset helpers *)

(** [ORDER BY] of a model's [Meta.ordering]: a stable sort, so rows that tie
    on the sort key stay in table order. *)
Fixpoint insert_by {A} (le : A → A → bool) (x : A) (rows : list A) : list A :=
  match rows with
  | [] => [x]
  | y :: rows' => if le x y then x :: y :: rows' else y :: insert_by le x rows'
  end.

Definition order_by {A} (le : A → A → bool) (rows : list A) : list A :=
  foldr (insert_by le) [] rows.

Definition id_in (i : Id) (ids : list Id) : bool := existsb (Pos.eqb i) ids.

(** [value in queryset] on attribute values: model instances compare by
    primary key. *)
Definition value_in (v : ContentAttributeValue) (vs : list ContentAttributeValue) : bool :=
  id_in (cav_id v) (map cav_id vs).

Definition exists_ {A} (rows : list A) : bool :=
  match rows with
  | [] => false
  | _ :: _ => true
  end.

(** Python truthiness of an optional string: [None] and the empty string are
    falsy. *)
Definition truthy (c : option string) : bool :=
  match c with
  | None => false
  | Some s => negb (String.eqb s "")
  end.

(** [list_obj.attributes.filter(attribute=a, listattributeassignment__archived=False)] *)
Definition attributes_filter (l : List_) (a : Id) : list ContentAttributeValue :=
  map attribute_value
    (List.filter (λ aa, Pos.eqb (cav_attribute (attribute_value aa)) a && negb (archived aa))
       (attribute_assignments l)).

(** [self.rules.all()]: the rule rows related to the expansion. *)
Definition rules_all (db : Store) (e : ContentEquipmentListExpansion)
  : list ContentEquipmentListExpansionRule :=
  List.filter (λ r, id_in (rule_id r) (rules e)) (rule_table db).

(** ** Rule matching *)

Definition match_by_attribute (attribute : Id) (attribute_values : list ContentAttributeValue)
    (rule_inputs : ExpansionRuleInputs) : result bool :=
  match input_list rule_inputs with
  | None => Raise AttributeError
  | Some list_obj =>
      let list_values := attributes_filter list_obj attribute in
      if negb (exists_ list_values) then Ok false
      else
        let rule_values := attribute_values in
        if negb (exists_ rule_values) then Ok true
        else Ok (existsb (λ list_value, value_in list_value rule_values) list_values)
  end.

Definition match_by_house (house : Id) (rule_inputs : ExpansionRuleInputs) : result bool :=
  match input_list rule_inputs with
  | None => Raise AttributeError
  | Some list_obj => Ok (Pos.eqb (content_house list_obj) house)
  end.

Definition match_by_fighter_category (fighter_categories : list string)
    (rule_inputs : ExpansionRuleInputs) : result bool :=
  match input_fighter rule_inputs with
  | None => Ok false
  | Some fighter =>
      let category := get_category fighter in
      if negb (truthy category) then Ok false
      else
        match category with
        | Some c => Ok (existsb (String.eqb c) fighter_categories)
        | None => Ok false
        end
  end.

(** Polymorphic dispatch of [rule.match(rule_inputs)]. *)
Definition match_ (rule : ContentEquipmentListExpansionRule)
    (rule_inputs : ExpansionRuleInputs) : result bool :=
  match rule_variant rule with
  | BaseRule => Raise NotImplementedError
  | ByAttribute attribute attribute_values =>
      match_by_attribute attribute attribute_values rule_inputs
  | ByHouse house => match_by_house house rule_inputs
  | ByFighterCategory fighter_categories =>
      match_by_fighter_category fighter_categories rule_inputs
  end.

(** ** Expansion applicability *)

(** The loop of [applies_to]: the first rule that does not match returns
    [False]; falling off the end returns [True]. *)
Fixpoint applies_to_loop (rs : list ContentEquipmentListExpansionRule)
    (rule_inputs : ExpansionRuleInputs) : result bool :=
  match rs with
  | [] => Ok true
  | rule :: rs' =>
      m ← match_ rule rule_inputs;
      if negb m then Ok false else applies_to_loop rs' rule_inputs
  end.

Definition applies_to (db : Store) (self : ContentEquipmentListExpansion)
    (rule_inputs : ExpansionRuleInputs) : result bool :=
  applies_to_loop (rules_all db self) rule_inputs.

(** ** Bulk query for the applicable expansions *)

(** Modelled from the spec: [List.active_attributes_cached] is defined outside
    this module; it is the currently active (non-archived) attribute-value
    assignments of the list. *)
Definition active_attributes_cached (l : List_) : list ListAttributeAssignment :=
  List.filter (λ aa, negb (archived aa)) (attribute_assignments l).

(** A multi-select field is stored as its choices joined by commas, and the
    [contains] lookup on it is a substring test on that text. *)
Definition stored (choices : list string) : string := String.concat "," choices.

Definition contains (text pattern : string) : bool :=
  match String.index 0 pattern text with
  | Some _ => true
  | None => false
  end.

(** [Q(...ByAttribute___attribute_values__in=[...]) | Q(...ByHouse___house=...)] *)
Definition list_rules (input_list : List_) (r : ContentEquipmentListExpansionRule) : bool :=
  match rule_variant r with
  | ByAttribute _ attribute_values =>
      existsb
        (λ v, id_in (cav_id v)
                (map (λ aa, cav_id (attribute_value aa)) (active_attributes_cached input_list)))
        attribute_values
  | ByHouse house => Pos.eqb house (content_house input_list)
  | _ => false
  end.

(** [Q(...ByFighterCategory___fighter_categories__contains=category)] *)
Definition fighter_rules (category : string) (r : ContentEquipmentListExpansionRule) : bool :=
  match rule_variant r with
  | ByFighterCategory fighter_categories => contains (stored fighter_categories) category
  | _ => false
  end.

(** The candidate rules.  The list is dereferenced first; a fighter whose
    category is [None] makes the [contains] lookup reject its value when the
    filter is built. *)
Definition applicable_rules (db : Store) (rule_inputs : ExpansionRuleInputs)
  : result (list ContentEquipmentListExpansionRule) :=
  match input_list rule_inputs with
  | None => Raise AttributeError
  | Some input_list =>
      match input_fighter rule_inputs with
      | Some input_fighter =>
          match get_category input_fighter with
          | None => Raise ValueError
          | Some category =>
              Ok (List.filter (λ r, list_rules input_list r || fighter_rules category r)
                    (rule_table db))
          end
      | None => Ok (List.filter (list_rules input_list) (rule_table db))
      end
  end.

(** [Count("rules", distinct=True)] and its filtered variant. *)
Definition total (db : Store) (e : ContentEquipmentListExpansion) : nat :=
  length (remove_dups (map rule_id (rules_all db e))).

Definition matched (db : Store) (applicable : list ContentEquipmentListExpansionRule)
    (e : ContentEquipmentListExpansion) : nat :=
  length (List.filter (λ i, id_in i (map rule_id applicable))
            (remove_dups (map rule_id (rules_all db e)))).

Definition get_applicable_expansions (db : Store) (rule_inputs : ExpansionRuleInputs)
  : result (list ContentEquipmentListExpansion) :=
  applicable ← applicable_rules db rule_inputs;
  Ok (List.filter
        (λ e, Nat.eqb (matched db applicable e) (total db e) && negb (Nat.eqb (total db e) 0))
        (expansion_table db)).

(** The reference algorithm in the words of the specification: for each
    expansion with at least one rule, call [match] on every one of its rules
    and keep the expansion iff all return true. *)
Fixpoint every_rule_matches (rs : list ContentEquipmentListExpansionRule)
    (rule_inputs : ExpansionRuleInputs) : result bool :=
  match rs with
  | [] => Ok true
  | rule :: rs' =>
      m ← match_ rule rule_inputs;
      rest ← every_rule_matches rs' rule_inputs;
      Ok (m && rest)
  end.

Fixpoint filter_result {A} (p : A → result bool) (rows : list A) : result (list A) :=
  match rows with
  | [] => Ok []
  | x :: rows' =>
      keep ← p x;
      rest ← filter_result p rows';
      Ok (if keep : bool then x :: rest else rest)
  end.

Definition naive_applicable_expansions (db : Store) (rule_inputs : ExpansionRuleInputs)
  : result (list ContentEquipmentListExpansion) :=
  filter_result
    (λ e, if exists_ (rules_all db e)
          then every_rule_matches (rules_all db e) rule_inputs
          else Ok false)
    (expansion_table db).

(** ** Expansion items for one equipment *)

Definition weapon_profile_id (item : ContentEquipmentListExpansionItem) : option Id :=
  profile_id <$> weapon_profile item.

(** [filter(equipment=equipment, weapon_profile=weapon_profile)]; a [None]
    profile selects the rows whose profile is null. *)
Definition references (equipment0 : ContentEquipment)
    (weapon_profile0 : option ContentWeaponProfile)
    (item : ContentEquipmentListExpansionItem) : bool :=
  Pos.eqb (equipment item) (equipment_id equipment0)
  && match weapon_profile0, weapon_profile_id item with
     | None, None => true
     | Some p, Some i => Pos.eqb i (profile_id p)
     | _, _ => false
     end.

(** The extra keyword filters are a predicate on item rows. *)
Definition no_kwargs : ContentEquipmentListExpansionItem → bool := λ _, true.

Definition get_applicable_expansion_items_for_equipment (db : Store)
    (rule_inputs : ExpansionRuleInputs) (equipment0 : ContentEquipment)
    (weapon_profile0 : option ContentWeaponProfile)
    (kwargs : ContentEquipmentListExpansionItem → bool)
  : result (list ContentEquipmentListExpansionItem) :=
  let exists_in_expansion :=
    exists_ (List.filter (references equipment0 weapon_profile0) (item_table db)) in
  if negb exists_in_expansion then Ok []
  else
    expansions ← get_applicable_expansions db rule_inputs;
    Ok (List.filter
          (λ item, references equipment0 weapon_profile0 item
                   && id_in (expansion item) (map expansion_id expansions)
                   && kwargs item)
          (item_table db)).

(** The same query without the early return. *)
Definition unguarded_expansion_items_for_equipment (db : Store)
    (rule_inputs : ExpansionRuleInputs) (equipment0 : ContentEquipment)
    (weapon_profile0 : option ContentWeaponProfile)
    (kwargs : ContentEquipmentListExpansionItem → bool)
  : result (list ContentEquipmentListExpansionItem) :=
  expansions ← get_applicable_expansions db rule_inputs;
  Ok (List.filter
        (λ item, references equipment0 weapon_profile0 item
                 && id_in (expansion item) (map expansion_id expansions)
                 && kwargs item)
        (item_table db)).

(** ** Equipment aggregation *)

Record EquipmentData := {
  data_cost : option Z;
  data_profiles : gmap Id (option Z);
}.

(** One iteration of the inner loop of [get_expansion_equipment]. *)
Definition record_item (equipment_data : gmap Id EquipmentData)
    (item : ContentEquipmentListExpansionItem) : gmap Id EquipmentData :=
  let eq_id := equipment item in
  let equipment_data :=
    match equipment_data !! eq_id with
    | None => <[eq_id := {| data_cost := None; data_profiles := ∅ |}]> equipment_data
    | Some _ => equipment_data
    end in
  match weapon_profile_id item with
  | Some wp_id =>
      alter (λ d, {| data_cost := data_cost d;
                     data_profiles := <[wp_id := cost item]> (data_profiles d) |})
        eq_id equipment_data
  | None =>
      alter (λ d, {| data_cost := cost item; data_profiles := data_profiles d |})
        eq_id equipment_data
  end.

(** [item.equipment.name], the second sort key of the item model. *)
Definition item_equipment_name (db : Store) (item : ContentEquipmentListExpansionItem)
  : string :=
  match List.find (λ e, Pos.eqb (equipment_id e) (equipment item)) (equipment_table db) with
  | Some e => equipment_name e
  | None => ""
  end.

(** The default ordering of expansions, [ordering = ["name"]]. *)
Definition by_name (db : Store) (a b : ContentEquipmentListExpansion) : bool :=
  name_le db (name a) (name b).

(** The default ordering of items, [ordering = ["expansion", "equipment__name"]],
    within the items of one expansion. *)
Definition by_equipment_name (db : Store) (a b : ContentEquipmentListExpansionItem) : bool :=
  name_le db (item_equipment_name db a) (item_equipment_name db b).

(** [expansion.items.all()]: the items of the expansion in the item model's
    default ordering. *)
Definition items_all (db : Store) (e : ContentEquipmentListExpansion)
  : list ContentEquipmentListExpansionItem :=
  order_by (by_equipment_name db)
    (List.filter (λ item, Pos.eqb (expansion item) (expansion_id e)) (item_table db)).

(** The items visited by the two nested loops, in visiting order: the
    prefetched expansions come in the expansion model's default ordering, by
    name, whatever the order of their rows in the table. *)
Definition visited_items (db : Store) (expansions : list ContentEquipmentListExpansion)
  : list ContentEquipmentListExpansionItem :=
  let prefetched_expansions :=
    order_by (by_name db)
      (List.filter (λ e, id_in (expansion_id e) (map expansion_id expansions))
         (expansion_table db)) in
  concat (map (items_all db) prefetched_expansions).

Definition collect_equipment_data (db : Store)
    (expansions : list ContentEquipmentListExpansion) : gmap Id EquipmentData :=
  fold_left record_item (visited_items db expansions) ∅.

(** The [Case] expression built from the [When] clauses, with its default,
    evaluated on the row [row_id]: the first clause whose id is the row's
    gives the value. *)
Definition case_when (when_clauses : list (Id * Z)) (default : Z) (row_id : Id) : Z :=
  match List.find (λ w, Pos.eqb (fst w) row_id) when_clauses with
  | Some w => snd w
  | None => default
  end.

Definition get_expansion_equipment (db : Store) (rule_inputs : ExpansionRuleInputs)
  : result (list (ContentEquipment * Z)) :=
  expansions ← get_applicable_expansions db rule_inputs;
  let equipment_data := collect_equipment_data db expansions in
  let equipment_ids := map fst (map_to_list equipment_data) in
  let equipment := List.filter (λ e, id_in (equipment_id e) equipment_ids) (equipment_table db) in
  let cost_overrides : gmap Id Z := omap data_cost equipment_data in
  let when_clauses := map_to_list cost_overrides in
  if exists_ when_clauses
  then Ok (map (λ e, (e, case_when when_clauses (cost_cast_int e) (equipment_id e))) equipment)
  else Ok (map (λ e, (e, cost_cast_int e)) equipment).

(** ** Write-time validation of an expansion item *)

Definition clean (self : ContentEquipmentListExpansionItem) : result unit :=
  match weapon_profile self with
  | Some wp =>
      if negb (Pos.eqb (profile_equipment wp) (equipment self))
      then Raise ValidationError
      else Ok ()
  | None => Ok ()
  end.

(** ** Combined equipment lists of a fighter and its legacy *)

Module CombinedEquipmentLists.

Record ContentFighterEquipmentListItem := {
  fighter : Id;
  item_equipment : Id;
  item_weapon_profile : option Id;
  item_cost : Z;
}.

(** Modelled from the spec: [ListFighter.equipment_list_fighters] lives in
    [gyrinx.core.models.list], of which only the test is at hand.  It is
    the legacy fighter followed by the fighter's own content fighter when a
    legacy is present, else the own content fighter alone. *)
Definition equipment_list_fighters (f : ListFighter) : list Id :=
  match legacy_content_fighter f with
  | Some legacy => [legacy; content_fighter f]
  | None => [content_fighter f]
  end.

Definition same_key (equipment0 : Id) (weapon_profile0 : option Id)
    (e : ContentFighterEquipmentListItem) : bool :=
  Pos.eqb (item_equipment e) equipment0
  && match weapon_profile0, item_weapon_profile e with
     | None, None => true
     | Some p, Some q => Pos.eqb q p
     | _, _ => false
     end.

(** The query of the test: the entries of every source fighter for the
    key (equipment, weapon profile). *)
Definition overrides (entries : list ContentFighterEquipmentListItem) (f : ListFighter)
    (equipment0 : Id) (weapon_profile0 : option Id)
  : list ContentFighterEquipmentListItem :=
  List.filter
    (λ e, id_in (fighter e) (equipment_list_fighters f) && same_key equipment0 weapon_profile0 e)
    entries.

(** Modelled from the spec: cost resolution is not among the sources.  Among
    the entries of all source fighters for the key, the entry of the legacy
    source takes precedence; without one, the base source's entry applies;
    with no entry the result is [None] and the caller falls back. *)
Definition resolve_cost (entries : list ContentFighterEquipmentListItem) (f : ListFighter)
    (equipment0 : Id) (weapon_profile0 : option Id) : option Z :=
  let found := overrides entries f equipment0 weapon_profile0 in
  match legacy_content_fighter f with
  | Some legacy =>
      match List.filter (λ e, Pos.eqb (fighter e) legacy) found with
      | legacy_override :: _ => Some (item_cost legacy_override)
      | [] => item_cost <$> head found
      end
  | None => item_cost <$> head found
  end.

(** The entry one source fighter has for a key. *)
Definition entry_of (entries : list ContentFighterEquipmentListItem) (source : Id)
    (equipment0 : Id) (weapon_profile0 : option Id)
  : option ContentFighterEquipmentListItem :=
  head (List.filter
          (λ e, Pos.eqb (fighter e) source && same_key equipment0 weapon_profile0 e)
          entries).

End CombinedEquipmentLists.

(** ** Query-string template tags

    The tags of [gyrinx/core/templatetags/custom_tags.py] that rewrite the
    query string of the current request.  [request.GET] is a [QueryDict]: a
    dictionary from keys to lists of values that keeps insertion order, here
    an association list.  Keyword values are given by their text, which is
    what [urlencode] prints of them; the [nth] keyword, which the tags [pop]
    from the keywords first, is passed apart and is an integer. *)

Module CustomTags.

Inductive error : Set :=
  | KeyError       (* [kwargs.pop("nth")] without an [nth] keyword *)
  | IndexError     (* list index out of range *)
  | TypeError.     (* membership test in something that is not a container *)

Inductive outcome (A : Type) : Type :=
  | Return (a : A)
  | Throw (e : error).
Arguments Return {A} a.
Arguments Throw {A} e.

#[global] Instance outcome_bind : MBind outcome := λ A B f m,
  match m with
  | Return a => f a
  | Throw e => Throw e
  end.

Abbreviation QueryDict := (list (string * list string)).

(** [d.getlist(k)]: the values of the key, the empty list when it is missing. *)
Fixpoint getlist (d : QueryDict) (k : string) : list string :=
  match d with
  | [] => []
  | (k', vs) :: d' => if String.eqb k' k then vs else getlist d' k
  end.

(** [d.setlist(k, vs)]: an existing key keeps its place, a new one goes last. *)
Fixpoint setlist (d : QueryDict) (k : string) (vs : list string) : QueryDict :=
  match d with
  | [] => [(k, vs)]
  | (k', vs') :: d' =>
      if String.eqb k' k then (k, vs) :: d' else (k', vs') :: setlist d' k vs
  end.

(** [d.pop(k, 0)]: the key is removed if present. *)
Definition pop (d : QueryDict) (k : string) : QueryDict :=
  List.filter (λ kv, negb (String.eqb (fst kv) k)) d.

(** [k in d] *)
Definition has_key (d : QueryDict) (k : string) : bool :=
  existsb (λ kv, String.eqb (fst kv) k) d.

(** The key-value pairs [urlencode] prints, in order: a key with several
    values is repeated, a key with no value does not appear. *)
Definition pairs (d : QueryDict) : list (string * string) :=
  flat_map (λ kv, map (pair (fst kv)) (snd kv)) d.

(** Python's index of a list of length [len]: a negative index counts from
    the end; [None] when out of range. *)
Definition index_of (len : nat) (nth : Z) : option nat :=
  if (0 <=? nth)%Z
  then if (nth <? Z.of_nat len)%Z then Some (Z.to_nat nth) else None
  else if (0 <=? nth + Z.of_nat len)%Z then Some (Z.to_nat (nth + Z.of_nat len)) else None.

(** [current[nth] = v] *)
Definition setitem (current : list string) (nth : Z) (v : string) : outcome (list string) :=
  match index_of (length current) nth with
  | Some i => Return (<[i := v]> current)
  | None => Throw IndexError
  end.

(** [current.pop(nth)], the list that is left. *)
Definition list_pop (current : list string) (nth : Z) : outcome (list string) :=
  match index_of (length current) nth with
  | Some i => Return (delete i current)
  | None => Throw IndexError
  end.

(** A [for] loop over the keywords whose body may raise. *)
Fixpoint for_each {A S} (body : S → A → outcome S) (items : list A) (s : S) : outcome S :=
  match items with
  | [] => Return s
  | x :: items' => s' ← body s x; for_each body items' s'
  end.

(** The value of a keyword. *)
Fixpoint kwarg {V} (kwargs : list (string * V)) (k : string) : option V :=
  match kwargs with
  | [] => None
  | (k', v) :: kwargs' => if String.eqb k' k then Some v else kwarg kwargs' k
  end.

(** The dictionary each tag builds before encoding it. *)

Definition qt_updated (GET : QueryDict) (kwargs : list (string * option string)) : QueryDict :=
  fold_left
    (λ updated kv,
       match snd kv with
       | Some v => setlist updated (fst kv) [v]
       | None => pop updated (fst kv)
       end)
    kwargs GET.

Definition qt_nth_updated (GET : QueryDict) (nth : option Z) (kwargs : list (string * string))
  : outcome QueryDict :=
  match nth with
  | None => Throw KeyError
  | Some nth =>
      for_each
        (λ updated kv,
           let current := getlist updated (fst kv) in
           current' ← (if (nth <? Z.of_nat (length current))%Z
                       then setitem current nth (snd kv)
                       else Return (current ++ [snd kv])%list);
           Return (setlist updated (fst kv) current'))
        kwargs GET
  end.

Definition qt_rm_nth_updated (GET : QueryDict) (nth : option Z)
    (kwargs : list (string * string)) : outcome QueryDict :=
  match nth with
  | None => Throw KeyError
  | Some nth =>
      for_each
        (λ updated kv,
           if negb (String.eqb (snd kv) "1") then Return updated
           else
             let current := getlist updated (fst kv) in
             if (nth <? Z.of_nat (length current))%Z
             then current' ← list_pop current nth;
                  Return (setlist updated (fst kv) current')
             else Return updated)
        kwargs GET
  end.

Definition qt_append_updated (GET : QueryDict) (kwargs : list (string * string)) : QueryDict :=
  fold_left
    (λ updated kv, setlist updated (fst kv) (getlist updated (fst kv) ++ [snd kv])%list)
    kwargs GET.

Definition qt_rm_updated (GET : QueryDict) (args : list string) : QueryDict :=
  fold_left pop args GET.

(** [value in request.GET.getlist(key, list)]: for a missing key [getlist]
    returns its default, which here is the type [list] itself, and a
    membership test in a type raises. *)
Definition in_getlist (GET : QueryDict) (key value : string) : outcome bool :=
  if has_key GET key
  then Return (existsb (String.eqb value) (getlist GET key))
  else Throw TypeError.

(** [key in request.GET and value in request.GET.getlist(key, list)]: the
    second operand is evaluated only when the first holds. *)
Definition qt_contains (GET : QueryDict) (key value : string) : outcome bool :=
  if has_key GET key then in_getlist GET key value else Return false.

Section UrlEncoding.

(** The text of one key-value pair, [urlencode({k: v})]. *)
Variable encode : string → string → string.

Definition urlencode (d : QueryDict) : string :=
  String.concat "&" (map (λ kv, encode (fst kv) (snd kv)) (pairs d)).

Definition qt (GET : QueryDict) (kwargs : list (string * option string)) : string :=
  urlencode (qt_updated GET kwargs).

Definition qt_nth (GET : QueryDict) (nth : option Z) (kwargs : list (string * string))
  : outcome string :=
  updated ← qt_nth_updated GET nth kwargs; Return (urlencode updated).

Definition qt_rm_nth (GET : QueryDict) (nth : option Z) (kwargs : list (string * string))
  : outcome string :=
  updated ← qt_rm_nth_updated GET nth kwargs; Return (urlencode updated).

Definition qt_append (GET : QueryDict) (kwargs : list (string * string)) : string :=
  urlencode (qt_append_updated GET kwargs).

Definition qt_rm (GET : QueryDict) (args : list string) : string :=
  urlencode (qt_rm_updated GET args).

End UrlEncoding.

(** A small request: [?cat=a&cat=b&q=x]. *)
Definition sample_GET : QueryDict := [("cat", ["a"; "b"]); ("q", ["x"])].

End CustomTags.

(** ** Vocabulary of the statements *)

(** [v] is an active (non-archived) value of the list [l] for attribute [a]. *)
Definition active_value (l : List_) (a : Id) (v : ContentAttributeValue) : Prop :=
  ∃ aa, aa ∈ attribute_assignments l
        ∧ archived aa = false ∧ attribute_value aa = v ∧ cav_attribute v = a.

(** [v] is one of the allowed values [vs]: equal primary keys. *)
Definition allowed (vs : list ContentAttributeValue) (v : ContentAttributeValue) : Prop :=
  ∃ w, w ∈ vs ∧ cav_id w = cav_id v.

(** [get_category] yields nothing. *)
Definition unresolved (f : ListFighter) : Prop :=
  get_category f = None ∨ get_category f = Some "".

(** The override the aggregation ends with for an equipment: the cost of the
    last base-level item for it among the visited items, if any. *)
Definition base_level (eq_id : Id) (item : ContentEquipmentListExpansionItem) : bool :=
  Pos.eqb (equipment item) eq_id
  && match weapon_profile_id item with
     | None => true
     | Some _ => false
     end.

Definition base_override (items : list ContentEquipmentListExpansionItem) (eq_id : Id)
  : option Z :=
  last (List.filter (base_level eq_id) items) ≫= cost.

(** A base-level item of an applicable expansion supplies the non-null cost
    [k] for the equipment [eq_id]. *)
Definition supplies (db : Store) (expansions : list ContentEquipmentListExpansion)
    (eq_id : Id) (k : Z) : Prop :=
  ∃ x item, x ∈ expansions ∧ item ∈ items_all db x
            ∧ equipment item = eq_id ∧ weapon_profile item = None ∧ cost item = Some k.

(** The effective-cost rule as the specification words it: the effective cost
    is a supplied override whenever a base-level item of some applicable
    expansion supplies a non-null cost, and the native cost otherwise. *)
Definition override_whenever_supplied (db : Store) (rule_inputs : ExpansionRuleInputs) : Prop :=
  ∀ expansions out e c,
    get_applicable_expansions db rule_inputs = Ok expansions →
    get_expansion_equipment db rule_inputs = Ok out →
    (e, c) ∈ out →
    ((∃ k, supplies db expansions (equipment_id e) k) →
       supplies db expansions (equipment_id e) c)
    ∧ ((¬ ∃ k, supplies db expansions (equipment_id e) k) → c = cost_cast_int e).

(** The predicate of the candidate-rule filter for a present list: the list
    clause, joined with the fighter clause when a fighter is given. *)
Definition candidate (input_list : List_) (input_fighter : option ListFighter)
    (r : ContentEquipmentListExpansionRule) : bool :=
  match input_fighter with
  | Some f =>
      match get_category f with
      | Some category => list_rules input_list r || fighter_rules category r
      | None => false
      end
  | None => list_rules input_list r
  end.

(** The list with its archived attribute assignments dropped. *)
Definition without_archived (l : List_) : List_ :=
  {| content_house := content_house l;
     attribute_assignments := active_attributes_cached l |}.

(** [item] is an item for the equipment [eq_id] with the weapon profile
    [wp_id]. *)
Definition profile_level (eq_id wp_id : Id) (item : ContentEquipmentListExpansionItem)
  : bool :=
  Pos.eqb (equipment item) eq_id
  && match weapon_profile_id item with
     | Some i => Pos.eqb i wp_id
     | None => false
     end.

(** An attribute rule that lists no value. *)
Definition any_value (r : ContentEquipmentListExpansionRule) : Prop :=
  ∃ a, rule_variant r = ByAttribute a [].

(** The early return of the items query as the specification words it: a
    pure performance guard, so that the query answers the same with it and
    without it. *)
Definition guard_is_pure (db : Store) (rule_inputs : ExpansionRuleInputs)
    (equipment0 : ContentEquipment) (weapon_profile0 : option ContentWeaponProfile) : Prop :=
  get_applicable_expansion_items_for_equipment db rule_inputs equipment0 weapon_profile0
    no_kwargs
  = unguarded_expansion_items_for_equipment db rule_inputs equipment0 weapon_profile0
      no_kwargs.

(** Rule ids are primary keys of the rule table. *)
Definition rule_primary_key (db : Store) : Prop :=
  ∀ r r', r ∈ rule_table db → r' ∈ rule_table db → rule_id r = rule_id r' → r = r'.

(** ** Concrete stores *)

Module Examples.

Definition house_rule : ContentEquipmentListExpansionRule :=
  {| rule_id := 1; rule_variant := ByHouse 1 |}.

(** An attribute rule with no attribute values: any value of attribute 7. *)
Definition any_value_rule : ContentEquipmentListExpansionRule :=
  {| rule_id := 2; rule_variant := ByAttribute 7 [] |}.

Definition alignment_law : ContentAttributeValue := {| cav_id := 70; cav_attribute := 7 |}.

Definition outlaw_expansion : ContentEquipmentListExpansion :=
  {| expansion_id := 1; name := "Any alignment"; rules := [2%positive] |}.

Definition attribute_store : Store :=
  {| rule_table := [house_rule; any_value_rule];
     expansion_table := [outlaw_expansion];
     item_table := [];
     equipment_table := [];
     name_le := String.leb |}.

Definition aligned_list : List_ :=
  {| content_house := 1;
     attribute_assignments := [ {| attribute_value := alignment_law; archived := false |} ] |}.

Definition aligned_inputs : ExpansionRuleInputs :=
  {| input_list := Some aligned_list; input_fighter := None |}.

(** Two expansions of the list's house, visited in the order of their names,
    with a base-level item each for the same equipment: the first overrides
    the cost, the second leaves it null. *)
Definition first_expansion : ContentEquipmentListExpansion :=
  {| expansion_id := 1; name := "A"; rules := [1%positive] |}.
Definition second_expansion : ContentEquipmentListExpansion :=
  {| expansion_id := 2; name := "B"; rules := [1%positive] |}.

Definition lasgun : ContentEquipment :=
  {| equipment_id := 1; equipment_name := "Lasgun"; cost_cast_int := 30 |}.
Definition autogun : ContentEquipment :=
  {| equipment_id := 2; equipment_name := "Autogun"; cost_cast_int := 15 |}.
Definition hotshot : ContentWeaponProfile := {| profile_id := 5; profile_equipment := 1 |}.

Definition discounted : ContentEquipmentListExpansionItem :=
  {| expansion := 1; equipment := 1; weapon_profile := None; cost := Some 10%Z |}.
Definition undiscounted : ContentEquipmentListExpansionItem :=
  {| expansion := 2; equipment := 1; weapon_profile := None; cost := None |}.

Definition overwrite_store : Store :=
  {| rule_table := [house_rule];
     expansion_table := [first_expansion; second_expansion];
     item_table := [discounted; undiscounted];
     equipment_table := [lasgun; autogun];
     name_le := String.leb |}.

Definition house_inputs : ExpansionRuleInputs :=
  {| input_list := Some {| content_house := 1; attribute_assignments := [] |};
     input_fighter := None |}.

(** An attribute rule that lists one value, and a list with two active
    values and one archived value for the rule's attribute. *)
Definition alignment_outlaw : ContentAttributeValue := {| cav_id := 71; cav_attribute := 7 |}.
Definition alignment_unknown : ContentAttributeValue := {| cav_id := 72; cav_attribute := 7 |}.

Definition law_rule : ContentEquipmentListExpansionRule :=
  {| rule_id := 3; rule_variant := ByAttribute 7 [alignment_law] |}.

Definition two_valued_list : List_ :=
  {| content_house := 1;
     attribute_assignments :=
       [ {| attribute_value := alignment_unknown; archived := true |};
         {| attribute_value := alignment_outlaw; archived := false |};
         {| attribute_value := alignment_law; archived := false |} ] |}.

Definition two_valued_inputs : ExpansionRuleInputs :=
  {| input_list := Some two_valued_list; input_fighter := None |}.

Definition leader_rule : ContentEquipmentListExpansionRule :=
  {| rule_id := 4; rule_variant := ByFighterCategory ["LEADER"; "CHAMPION"] |}.

(** The hunt leader of the test, with and without its legacy. *)
Definition hunt_leader : ListFighter :=
  {| content_fighter := 8; legacy_content_fighter := Some 9%positive;
     get_category := Some "LEADER" |}.
Definition plain_leader : ListFighter :=
  {| content_fighter := 8; legacy_content_fighter := None; get_category := Some "LEADER" |}.

Definition leader_inputs : ExpansionRuleInputs :=
  {| input_list := None; input_fighter := Some hunt_leader |}.

Definition base_psyker : CombinedEquipmentLists.ContentFighterEquipmentListItem :=
  {| CombinedEquipmentLists.fighter := 8; CombinedEquipmentLists.item_equipment := 1;
     CombinedEquipmentLists.item_weapon_profile := None;
     CombinedEquipmentLists.item_cost := 30 |}.
Definition base_sanctioned : CombinedEquipmentLists.ContentFighterEquipmentListItem :=
  {| CombinedEquipmentLists.fighter := 8; CombinedEquipmentLists.item_equipment := 2;
     CombinedEquipmentLists.item_weapon_profile := None;
     CombinedEquipmentLists.item_cost := 35 |}.
Definition legacy_gear : CombinedEquipmentLists.ContentFighterEquipmentListItem :=
  {| CombinedEquipmentLists.fighter := 9; CombinedEquipmentLists.item_equipment := 3;
     CombinedEquipmentLists.item_weapon_profile := None;
     CombinedEquipmentLists.item_cost := 45 |}.
Definition legacy_psyker : CombinedEquipmentLists.ContentFighterEquipmentListItem :=
  {| CombinedEquipmentLists.fighter := 9; CombinedEquipmentLists.item_equipment := 1;
     CombinedEquipmentLists.item_weapon_profile := None;
     CombinedEquipmentLists.item_cost := 25 |}.

Definition psyker_entries : list CombinedEquipmentLists.ContentFighterEquipmentListItem :=
  [base_psyker; base_sanctioned; legacy_gear; legacy_psyker].

(** An item whose weapon profile belongs to another equipment. *)
Definition mismatched : ContentEquipmentListExpansionItem :=
  {| expansion := 1; equipment := 2; weapon_profile := Some hotshot; cost := None |}.

(** A store with a house expansion and a leaders-only expansion, a
    profile-level item and a base-level item. *)
Definition leaders_expansion : ContentEquipmentListExpansion :=
  {| expansion_id := 3; name := "Leaders"; rules := [1%positive; 4%positive] |}.

Definition hotshot_pack : ContentEquipmentListExpansionItem :=
  {| expansion := 1; equipment := 1; weapon_profile := Some hotshot; cost := Some 20%Z |}.
Definition leader_autogun : ContentEquipmentListExpansionItem :=
  {| expansion := 3; equipment := 2; weapon_profile := None; cost := Some 12%Z |}.

Definition mixed_store : Store :=
  {| rule_table := [house_rule; leader_rule];
     expansion_table := [first_expansion; leaders_expansion];
     item_table := [hotshot_pack; leader_autogun];
     equipment_table := [lasgun; autogun];
     name_le := String.leb |}.

Definition house_leader_inputs : ExpansionRuleInputs :=
  {| input_list := Some {| content_house := 1; attribute_assignments := [] |};
     input_fighter := Some hunt_leader |}.

(** An expansion whose second rule is a row of the polymorphic base class. *)
Definition base_rule : ContentEquipmentListExpansionRule :=
  {| rule_id := 5; rule_variant := BaseRule |}.

Definition guarded_expansion : ContentEquipmentListExpansion :=
  {| expansion_id := 4; name := "Guarded"; rules := [4%positive; 5%positive] |}.

Definition guarded_store : Store :=
  {| rule_table := [leader_rule; base_rule];
     expansion_table := [guarded_expansion];
     item_table := [];
     equipment_table := [];
     name_le := String.leb |}.

Definition no_inputs : ExpansionRuleInputs :=
  {| input_list := None; input_fighter := None |}.

(** A fighter whose category does not resolve, in a list of house 1. *)
Definition uncategorised : ListFighter :=
  {| content_fighter := 8; legacy_content_fighter := None; get_category := None |}.

Definition uncategorised_inputs : ExpansionRuleInputs :=
  {| input_list := Some {| content_house := 1; attribute_assignments := [] |};
     input_fighter := Some uncategorised |}.

(** The rows of [overwrite_store] with the names of the two expansions
    exchanged: the expansion with the override is named "B" and still comes
    first in the table, the one with the null cost is named "A". *)
Definition late_expansion : ContentEquipmentListExpansion :=
  {| expansion_id := 1; name := "B"; rules := [1%positive] |}.
Definition early_expansion : ContentEquipmentListExpansion :=
  {| expansion_id := 2; name := "A"; rules := [1%positive] |}.

Definition renamed_store : Store :=
  {| rule_table := [house_rule];
     expansion_table := [late_expansion; early_expansion];
     item_table := [discounted; undiscounted];
     equipment_table := [lasgun; autogun];
     name_le := String.leb |}.

End Examples.

(** * Properties *)

(** ** Small facts about the helpers *)

Lemma id_in_spec (i : Id) (ids : list Id) : id_in i ids = true ↔ i ∈ ids.
Proof.
  unfold id_in. rewrite existsb_exists. split.
  - intros (j & Hj & Heq). apply Pos.eqb_eq in Heq. subst j.
    by apply list_elem_of_In.
  - intros Hin. exists i. split; [by apply list_elem_of_In | apply Pos.eqb_refl].
Qed.

Lemma exists_false {A} (rows : list A) : exists_ rows = false ↔ rows = [].
Proof. destruct rows; simpl; split; congruence. Qed.

Lemma exists_true {A} (rows : list A) : exists_ rows = true ↔ ∃ x, x ∈ rows.
Proof.
  destruct rows as [|x rows]; simpl; split; try congruence.
  - intros [x Hx]. by apply elem_of_nil in Hx.
  - intros _. exists x. apply list_elem_of_here.
Qed.

Lemma filter_In_elem {A} (p : A → bool) (l : list A) (x : A) :
  x ∈ List.filter p l ↔ x ∈ l ∧ p x = true.
Proof. rewrite !list_elem_of_In. apply filter_In. Qed.

Lemma elem_of_insert_by {A} (le : A → A → bool) (x y : A) (rows : list A) :
  y ∈ insert_by le x rows ↔ y = x ∨ y ∈ rows.
Proof.
  induction rows as [|z rows IH]; simpl.
  - rewrite list_elem_of_singleton. split; [by left | intros [? | H]; [done |]].
    by apply elem_of_nil in H.
  - destruct (le x z); rewrite !elem_of_cons; [done |].
    rewrite IH. tauto.
Qed.

(** Ordering a queryset neither adds nor drops a row. *)
Lemma elem_of_order_by {A} (le : A → A → bool) (y : A) (rows : list A) :
  y ∈ order_by le rows ↔ y ∈ rows.
Proof.
  unfold order_by. induction rows as [|x rows IH]; simpl; [done |].
  by rewrite elem_of_insert_by, IH, elem_of_cons.
Qed.

Lemma items_all_spec db e item :
  item ∈ items_all db e ↔ item ∈ item_table db ∧ expansion item = expansion_id e.
Proof.
  unfold items_all. rewrite elem_of_order_by, filter_In_elem.
  by rewrite Pos.eqb_eq.
Qed.

(** ** Applicability is the conjunction of the rule matches *)

Lemma applies_to_loop_true_iff rs rule_inputs :
  applies_to_loop rs rule_inputs = Ok true
  ↔ Forall (λ r, match_ r rule_inputs = Ok true) rs.
Proof.
  induction rs as [|r rs IH]; simpl.
  - split; [constructor | done].
  - destruct (match_ r rule_inputs) as [[|]|e] eqn:Hm; simpl.
    + rewrite IH. split.
      * intros H. by constructor.
      * intros H. by inversion H.
    + split; [done | intros H; inversion H; congruence].
    + split; [done | intros H; inversion H; congruence].
Qed.

(** X8: [applies_to] returns true exactly when [match] of every rule of the
    expansion returns true on the input; a rule that returns false or raises
    rules it out. *)
Lemma applies_to_true_iff db self rule_inputs :
  applies_to db self rule_inputs = Ok true
  ↔ ∀ r, r ∈ rules_all db self → match_ r rule_inputs = Ok true.
Proof.
  unfold applies_to. rewrite applies_to_loop_true_iff. apply Forall_forall.
Qed.

(** C1: an expansion with zero associated rules is reported applicable by
    [applies_to] for every input: the loop over the rules is never entered and
    the method falls through to [return True], where the claim requires
    false. *)
Theorem applies_to_zero_rules (db : Store) (rule_inputs : ExpansionRuleInputs)
    (i : Id) (n : string) :
  applies_to db {| expansion_id := i; name := n; rules := [] |} rule_inputs = Ok true.
Proof.
  unfold applies_to, rules_all. simpl.
  induction (rule_table db) as [|r t IH]; [done | exact IH].
Qed.

(** ** Attribute rules *)

Lemma attributes_filter_spec l a v :
  v ∈ attributes_filter l a ↔ active_value l a v.
Proof.
  unfold attributes_filter, active_value. rewrite list_elem_of_fmap. split.
  - intros (aa & -> & Haa). apply filter_In_elem in Haa as [Hin Hp].
    apply andb_true_iff in Hp as [Ha Hn].
    apply Pos.eqb_eq in Ha. apply negb_true_iff in Hn. by exists aa.
  - intros (aa & Hin & Harch & <- & Ha). exists aa. split; [done |].
    apply filter_In_elem. split; [done |].
    rewrite Harch. simpl. rewrite andb_true_r. by apply Pos.eqb_eq.
Qed.

Lemma value_in_spec v vs : value_in v vs = true ↔ allowed vs v.
Proof.
  unfold value_in, allowed. rewrite id_in_spec, list_elem_of_fmap. split.
  - intros (w & Hw & Hin). by exists w.
  - intros (w & Hin & Hw). by exists w.
Qed.

Lemma match_by_attribute_value a vs rule_inputs l :
  input_list rule_inputs = Some l →
  match_by_attribute a vs rule_inputs
  = Ok (exists_ (attributes_filter l a)
        && (negb (exists_ vs)
            || existsb (λ list_value, value_in list_value vs) (attributes_filter l a))).
Proof.
  intros Hl. unfold match_by_attribute. rewrite Hl.
  destruct (exists_ (attributes_filter l a)); [|done].
  by destruct (exists_ vs).
Qed.

Lemma match_by_attribute_true a vs rule_inputs l :
  input_list rule_inputs = Some l →
  match_by_attribute a vs rule_inputs = Ok true
  ↔ (∃ v, active_value l a v)
    ∧ (vs = [] ∨ ∃ v, active_value l a v ∧ allowed vs v).
Proof.
  intros Hl. rewrite (match_by_attribute_value _ _ _ _ Hl).
  split.
  - intros [= H]. apply andb_true_iff in H as [Hex Hor]. split.
    + apply exists_true in Hex as [v Hv]. exists v. by apply attributes_filter_spec.
    + apply orb_true_iff in Hor as [Hnone | Hany].
      * left. apply exists_false. by apply negb_true_iff.
      * right. apply existsb_exists in Hany as (v & Hv & Hin).
        exists v. split; [| by apply value_in_spec].
        apply attributes_filter_spec. by apply list_elem_of_In.
  - intros [[v Hv] Hor]. f_equal. apply andb_true_iff. split.
    + apply exists_true. exists v. by apply attributes_filter_spec.
    + apply orb_true_iff. destruct Hor as [-> | (w & Hw & Hall)]; [by left | right].
      apply existsb_exists. exists w. split; [| by apply value_in_spec].
      apply list_elem_of_In. by apply attributes_filter_spec.
Qed.

(** C3: for an attribute rule and an input whose list is present, [match]
    returns a boolean, and it returns true exactly when the list has at least
    one active value for the rule's attribute and either the rule's allowed
    values are empty or one of the list's active values for that attribute is
    among them; with no active value for the attribute it returns false
    whatever the allowed values are. *)
Theorem attribute_rule_match (rule : ContentEquipmentListExpansionRule) (a : Id)
    (vs : list ContentAttributeValue) (rule_inputs : ExpansionRuleInputs) (l : List_) :
  rule_variant rule = ByAttribute a vs →
  input_list rule_inputs = Some l →
  (∃ b, match_ rule rule_inputs = Ok b)
  ∧ (match_ rule rule_inputs = Ok true
     ↔ (∃ v, active_value l a v)
       ∧ (vs = [] ∨ ∃ v, active_value l a v ∧ allowed vs v))
  ∧ ((¬ ∃ v, active_value l a v) → match_ rule rule_inputs = Ok false).
Proof.
  intros Hrule Hl. unfold match_. rewrite Hrule.
  split; [| split].
  - rewrite (match_by_attribute_value _ _ _ _ Hl). eauto.
  - by apply match_by_attribute_true.
  - intros Hnone. rewrite (match_by_attribute_value _ _ _ _ Hl).
    destruct (exists_ (attributes_filter l a)) eqn:Hex; [| done].
    apply exists_true in Hex as [v Hv]. exfalso. apply Hnone.
    exists v. by apply attributes_filter_spec.
Qed.

Lemma attribute_rule_match_witness :
  (∃ b, match_ Examples.law_rule Examples.two_valued_inputs = Ok b)
  ∧ (match_ Examples.law_rule Examples.two_valued_inputs = Ok true
     ↔ (∃ v, active_value Examples.two_valued_list 7 v)
       ∧ ([Examples.alignment_law] = []
          ∨ ∃ v, active_value Examples.two_valued_list 7 v
                 ∧ allowed [Examples.alignment_law] v))
  ∧ ((¬ ∃ v, active_value Examples.two_valued_list 7 v) →
     match_ Examples.law_rule Examples.two_valued_inputs = Ok false).
Proof.
  apply (attribute_rule_match Examples.law_rule 7 [Examples.alignment_law]
           Examples.two_valued_inputs Examples.two_valued_list); reflexivity.
Defined.

(** C10: for an attribute rule with a non-empty set of allowed values, one
    active value of the list for the rule's attribute that is allowed is
    enough for [match] to return true, however many other active values the
    list has for that attribute and whether or not they are allowed. *)
Theorem attribute_rule_any_of (rule : ContentEquipmentListExpansionRule) (a : Id)
    (vs : list ContentAttributeValue) (rule_inputs : ExpansionRuleInputs) (l : List_)
    (v : ContentAttributeValue) :
  rule_variant rule = ByAttribute a vs →
  input_list rule_inputs = Some l →
  vs ≠ [] →
  active_value l a v →
  allowed vs v →
  match_ rule rule_inputs = Ok true.
Proof.
  intros Hrule Hl _ Hv Hallowed. unfold match_. rewrite Hrule.
  apply (match_by_attribute_true _ _ _ _ Hl). split; [by exists v |].
  right. by exists v.
Qed.

Lemma attribute_rule_any_of_witness :
  match_ Examples.law_rule Examples.two_valued_inputs = Ok true.
Proof.
  apply (attribute_rule_any_of Examples.law_rule 7 [Examples.alignment_law]
           Examples.two_valued_inputs Examples.two_valued_list Examples.alignment_law).
  - reflexivity.
  - reflexivity.
  - discriminate.
  - exists {| attribute_value := Examples.alignment_law; archived := false |}.
    repeat split. do 2 apply list_elem_of_further. apply list_elem_of_here.
  - exists Examples.alignment_law. split; [apply list_elem_of_here | reflexivity].
Defined.

(** ** Fighter-category rules *)

Lemma existsb_string_eqb (c : string) (cs : list string) :
  existsb (String.eqb c) cs = true ↔ c ∈ cs.
Proof.
  rewrite existsb_exists. split.
  - intros (d & Hd & Heq). apply String.eqb_eq in Heq. subst d. by apply list_elem_of_In.
  - intros Hin. exists c. split; [by apply list_elem_of_In | apply String.eqb_refl].
Qed.

(** C4: a fighter-category rule returns false, without raising, when the
    input has no fighter; returns false when the fighter's category cannot be
    resolved; and otherwise returns true exactly when the resolved category is
    one of the rule's categories. *)
Theorem fighter_category_rule_match (rule : ContentEquipmentListExpansionRule)
    (cats : list string) (rule_inputs : ExpansionRuleInputs) :
  rule_variant rule = ByFighterCategory cats →
  (input_fighter rule_inputs = None → match_ rule rule_inputs = Ok false)
  ∧ (∀ f, input_fighter rule_inputs = Some f → unresolved f →
          match_ rule rule_inputs = Ok false)
  ∧ (∀ f c, input_fighter rule_inputs = Some f → get_category f = Some c → c ≠ "" →
            ∃ b, match_ rule rule_inputs = Ok b ∧ (b = true ↔ c ∈ cats)).
Proof.
  intros Hrule. unfold match_, match_by_fighter_category. rewrite Hrule.
  split; [| split].
  - by intros ->.
  - intros f -> [Hc | Hc]; by rewrite Hc.
  - intros f c -> Hc Hne. rewrite Hc. simpl.
    destruct (String.eqb c "") eqn:He.
    + apply String.eqb_eq in He. done.
    + simpl. eexists. split; [done |]. apply existsb_string_eqb.
Qed.

Lemma fighter_category_rule_match_witness :
  ∃ b, match_ Examples.leader_rule Examples.leader_inputs = Ok b
       ∧ (b = true ↔ "LEADER" ∈ ["LEADER"; "CHAMPION"]).
Proof.
  apply (proj2 (proj2 (fighter_category_rule_match Examples.leader_rule
                         ["LEADER"; "CHAMPION"] Examples.leader_inputs eq_refl))
           Examples.hunt_leader "LEADER"); [reflexivity | reflexivity | discriminate].
Defined.

(** ** The bulk query against rule-by-rule evaluation *)

Lemma bind_ok {A B} (m : result A) (f : A → result B) (b : B) :
  m ≫= f = Ok b ↔ ∃ a, m = Ok a ∧ f a = Ok b.
Proof.
  destruct m as [a|e]; simpl; split.
  - intros H. by exists a.
  - by intros (a' & [= <-] & H).
  - done.
  - by intros (a' & [=] & _).
Qed.

Lemma bind_raise {A B} (m : result A) (f : A → result B) (e : exn) :
  m ≫= f = Raise e ↔ m = Raise e ∨ ∃ a, m = Ok a ∧ f a = Raise e.
Proof.
  destruct m as [a|e']; simpl; split.
  - intros H. right. by exists a.
  - intros [[=] | (a' & [= <-] & H)]. done.
  - intros [= ->]. by left.
  - intros [[= ->] | (a' & [=] & _)]. done.
Qed.

(** The bulk query returns whenever the list is present and the fighter, if
    any, has a category. *)
Lemma get_applicable_expansions_returns db rule_inputs l :
  input_list rule_inputs = Some l →
  (∀ f, input_fighter rule_inputs = Some f → is_Some (get_category f)) →
  ∃ expansions, get_applicable_expansions db rule_inputs = Ok expansions.
Proof.
  intros Hl Hf. unfold get_applicable_expansions, applicable_rules. rewrite Hl.
  destruct (input_fighter rule_inputs) as [f|]; [| simpl; eauto].
  destruct (Hf f eq_refl) as [c ->]. simpl. eauto.
Qed.

(** The bulk query never selects an expansion without rules. *)
Lemma get_applicable_expansions_nonempty db rule_inputs expansions e :
  get_applicable_expansions db rule_inputs = Ok expansions →
  e ∈ expansions → rules_all db e ≠ [].
Proof.
  unfold get_applicable_expansions. intros H He.
  apply bind_ok in H as (applicable & _ & [= <-]).
  apply filter_In_elem in He as [_ Hp].
  apply andb_true_iff in Hp as [_ Htotal].
  intros Hnil. unfold total in Htotal. by rewrite Hnil in Htotal.
Qed.

(** C2: on a store whose only expansion has the single attribute rule with no
    attribute values ("any value"), and a list with an active value for that
    attribute, the two-phase query selects nothing while evaluating [match]
    on every rule keeps the expansion: the candidate-rule predicate only finds
    attribute rules through one of their listed values. *)
Theorem bulk_query_misses_any_value_rule :
  get_applicable_expansions Examples.attribute_store Examples.aligned_inputs = Ok []
  ∧ naive_applicable_expansions Examples.attribute_store Examples.aligned_inputs
    = Ok [Examples.outlaw_expansion]
  ∧ match_ Examples.any_value_rule Examples.aligned_inputs = Ok true.
Proof. repeat split; vm_compute; reflexivity. Qed.

(** *** Where the two algorithms agree

    On a store whose rule ids are primary keys, and an input on which [match]
    of every rule returns what the candidate predicate says of it, the bulk
    query selects exactly the expansions that rule-by-rule evaluation keeps. *)

Lemma filter_result_ok {A} (p : A → result bool) (q : A → bool) (rows : list A) :
  (∀ x, x ∈ rows → p x = Ok (q x)) →
  filter_result p rows = Ok (List.filter q rows).
Proof.
  induction rows as [|x rows IH]; intros Hp; [done |].
  simpl. rewrite (Hp x) by apply list_elem_of_here. simpl.
  rewrite IH by (intros y Hy; apply Hp; by apply list_elem_of_further). simpl.
  by destruct (q x).
Qed.

Lemma every_rule_matches_ok (q : ContentEquipmentListExpansionRule → bool) rs rule_inputs :
  (∀ r, r ∈ rs → match_ r rule_inputs = Ok (q r)) →
  every_rule_matches rs rule_inputs = Ok (forallb q rs).
Proof.
  induction rs as [|r rs IH]; intros Hq; [done |].
  simpl. rewrite (Hq r) by apply list_elem_of_here. simpl.
  by rewrite IH by (intros y Hy; apply Hq; by apply list_elem_of_further).
Qed.

Lemma filter_length_all {A} (p : A → bool) (l : list A) :
  Nat.eqb (length (List.filter p l)) (length l) = forallb p l.
Proof.
  apply eq_true_iff_eq. rewrite Nat.eqb_eq. split; [apply filter_length_forallb |].
  intros H. by rewrite forallb_filter_id.
Qed.

Section BulkQueryAgreement.

Context (db : Store) (rule_inputs : ExpansionRuleInputs) (l : List_).

Hypothesis list_present : input_list rule_inputs = Some l.
Hypothesis category_resolved :
  ∀ f, input_fighter rule_inputs = Some f → is_Some (get_category f).
Hypothesis primary_key :
  ∀ r r', r ∈ rule_table db → r' ∈ rule_table db → rule_id r = rule_id r' → r = r'.
Hypothesis match_is_candidate :
  ∀ r, r ∈ rule_table db →
       match_ r rule_inputs = Ok (candidate l (input_fighter rule_inputs) r).

Lemma applicable_rules_candidates :
  applicable_rules db rule_inputs
  = Ok (List.filter (candidate l (input_fighter rule_inputs)) (rule_table db)).
Proof.
  unfold applicable_rules, candidate. rewrite list_present.
  destruct (input_fighter rule_inputs) as [f|]; [| done].
  by destruct (category_resolved f eq_refl) as [c ->].
Qed.

Lemma rule_in_candidates r :
  r ∈ rule_table db →
  id_in (rule_id r)
    (map rule_id (List.filter (candidate l (input_fighter rule_inputs)) (rule_table db)))
  = candidate l (input_fighter rule_inputs) r.
Proof.
  intros Hr. apply eq_true_iff_eq. rewrite id_in_spec, list_elem_of_fmap. split.
  - intros (r' & Hid & Hr'). apply filter_In_elem in Hr' as [Hr' Hc].
    by rewrite (primary_key r r' Hr Hr' Hid).
  - intros Hc. exists r. split; [done |]. by apply filter_In_elem.
Qed.

Lemma selected_iff_all_candidates e :
  Nat.eqb (matched db (List.filter (candidate l (input_fighter rule_inputs)) (rule_table db)) e)
          (total db e)
  && negb (Nat.eqb (total db e) 0)
  = exists_ (rules_all db e)
    && forallb (candidate l (input_fighter rule_inputs)) (rules_all db e).
Proof.
  unfold matched, total. rewrite filter_length_all, andb_comm. f_equal.
  - destruct (rules_all db e) as [|r rs] eqn:Hrs; [done |].
    destruct (remove_dups _) eqn:Hd; [| done].
    assert (rule_id r ∈ remove_dups (map rule_id (r :: rs))) as Hin
      by (apply elem_of_remove_dups; apply list_elem_of_here).
    rewrite Hd in Hin. by apply elem_of_nil in Hin.
  - apply eq_true_iff_eq. rewrite !forallb_forall. split.
    + intros Hall r Hr. apply list_elem_of_In in Hr.
      rewrite <- rule_in_candidates by (by apply filter_In_elem in Hr as [Hr _]).
      apply Hall. apply list_elem_of_In, elem_of_remove_dups, list_elem_of_fmap. by exists r.
    + intros Hall i Hi.
      apply list_elem_of_In, elem_of_remove_dups, list_elem_of_fmap in Hi as (r & -> & Hr).
      rewrite rule_in_candidates by (by apply filter_In_elem in Hr as [Hr _]).
      apply Hall. by apply list_elem_of_In.
Qed.

(** X9: on a store whose rule ids are primary keys and an input with a list
    (and a category for the fighter, if any), if [match] of every rule of the
    rule table returns what the candidate predicate says of the rule, the
    bulk query returns exactly what rule-by-rule evaluation returns. *)
Theorem bulk_query_agrees :
  get_applicable_expansions db rule_inputs = naive_applicable_expansions db rule_inputs.
Proof.
  unfold get_applicable_expansions, naive_applicable_expansions.
  rewrite applicable_rules_candidates. simpl. symmetry.
  rewrite (filter_result_ok _
             (λ e, exists_ (rules_all db e)
                   && forallb (candidate l (input_fighter rule_inputs)) (rules_all db e))).
  - f_equal. apply filter_ext. intros e. by rewrite selected_iff_all_candidates.
  - intros e _. destruct (exists_ (rules_all db e)) eqn:Hex; [| done].
    simpl. apply every_rule_matches_ok.
    intros r Hr. apply match_is_candidate. by apply filter_In_elem in Hr as [Hr _].
Qed.

End BulkQueryAgreement.

(** A house rule matches exactly when it is a candidate. *)
Lemma house_rule_candidate rule house rule_inputs l :
  rule_variant rule = ByHouse house →
  input_list rule_inputs = Some l →
  (∀ f, input_fighter rule_inputs = Some f → is_Some (get_category f)) →
  match_ rule rule_inputs = Ok (candidate l (input_fighter rule_inputs) rule).
Proof.
  intros Hrule Hl Hf. unfold match_, match_by_house, candidate, list_rules, fighter_rules.
  rewrite Hrule, Hl, Pos.eqb_sym.
  destruct (input_fighter rule_inputs) as [f|]; [| done].
  destruct (Hf f eq_refl) as [c ->]. by rewrite orb_false_r.
Qed.

(** X10: an attribute rule that lists at least one value, all of its own
    attribute, matches exactly when it is a candidate of the bulk query,
    provided value rows with the same id agree on their attribute. *)
Lemma attribute_rule_candidate rule a vs rule_inputs l :
  rule_variant rule = ByAttribute a vs →
  input_list rule_inputs = Some l →
  (∀ f, input_fighter rule_inputs = Some f → is_Some (get_category f)) →
  vs ≠ [] →
  (∀ v, v ∈ vs → cav_attribute v = a) →
  (∀ aa v, aa ∈ attribute_assignments l → v ∈ vs →
           cav_id (attribute_value aa) = cav_id v →
           cav_attribute (attribute_value aa) = cav_attribute v) →
  match_ rule rule_inputs = Ok (candidate l (input_fighter rule_inputs) rule).
Proof.
  intros Hrule Hl Hf Hvs Hown Hrows.
  assert (Hcand : candidate l (input_fighter rule_inputs) rule = list_rules l rule).
  { unfold candidate, fighter_rules. rewrite Hrule.
    destruct (input_fighter rule_inputs) as [f|]; [| done].
    destruct (Hf f eq_refl) as [c ->]. by rewrite orb_false_r. }
  rewrite Hcand. unfold match_, list_rules. rewrite Hrule.
  rewrite (match_by_attribute_value _ _ _ _ Hl). f_equal.
  destruct vs as [|v0 vs0] eqn:Hveq; [done |]. rewrite <- Hveq in *. clear Hvs.
  replace (negb (exists_ vs)) with false by (by rewrite Hveq). rewrite orb_false_l.
  apply eq_true_iff_eq. rewrite andb_true_iff, !existsb_exists. split.
  - intros [_ (lv & Hlv & Hin)]. apply value_in_spec in Hin as (w & Hw & Hid).
    exists w. split; [by apply list_elem_of_In |].
    apply id_in_spec, list_elem_of_fmap.
    apply list_elem_of_In, attributes_filter_spec in Hlv as (aa & Haa & Harch & <- & _).
    exists aa. split; [done |]. apply filter_In_elem. split; [done |]. by rewrite Harch.
  - intros (v & Hv & Hin). apply list_elem_of_In in Hv.
    apply id_in_spec, list_elem_of_fmap in Hin as (aa & Hid & Haa).
    apply filter_In_elem in Haa as [Haa Harch]. apply negb_true_iff in Harch.
    assert (attribute_value aa ∈ attributes_filter l a) as Hactive.
    { apply attributes_filter_spec. exists aa. repeat split; [done | done |].
      rewrite (Hrows aa v Haa Hv (eq_sym Hid)). by apply Hown. }
    split.
    + apply exists_true. by exists (attribute_value aa).
    + exists (attribute_value aa). split; [by apply list_elem_of_In |].
      apply value_in_spec. by exists v.
Qed.

(** A fighter-category rule matches exactly when it is a candidate, provided
    the substring test on the stored categories finds the fighter's category
    only when it is one of them. *)
Lemma fighter_category_rule_candidate rule cats rule_inputs l f c :
  rule_variant rule = ByFighterCategory cats →
  input_list rule_inputs = Some l →
  input_fighter rule_inputs = Some f →
  get_category f = Some c →
  c ≠ "" →
  contains (stored cats) c = existsb (String.eqb c) cats →
  match_ rule rule_inputs = Ok (candidate l (input_fighter rule_inputs) rule).
Proof.
  intros Hrule Hl Hf Hc Hne Hsub.
  unfold match_, match_by_fighter_category, candidate, list_rules, fighter_rules.
  rewrite Hrule, Hf, Hc, Hsub. simpl.
  destruct (String.eqb_spec c ""); [done | done].
Qed.

(** ** Expansion items for one equipment *)

(** C5 (amended): on every input on which the applicable expansions are
    computed, the items returned for an (equipment, weapon profile) pair are
    exactly the item rows that reference the pair and whose expansion is
    applicable; the query without the early return gives the same answer;
    and when no item row references the pair that answer is empty. *)
Theorem expansion_items_for_equipment (db : Store) (rule_inputs : ExpansionRuleInputs)
    (equipment0 : ContentEquipment) (weapon_profile0 : option ContentWeaponProfile)
    (expansions : list ContentEquipmentListExpansion) :
  get_applicable_expansions db rule_inputs = Ok expansions →
  let selected :=
    List.filter
      (λ item, references equipment0 weapon_profile0 item
               && id_in (expansion item) (map expansion_id expansions))
      (item_table db) in
  get_applicable_expansion_items_for_equipment db rule_inputs equipment0 weapon_profile0
    no_kwargs = Ok selected
  ∧ unguarded_expansion_items_for_equipment db rule_inputs equipment0 weapon_profile0
      no_kwargs = Ok selected
  ∧ ((∀ item, item ∈ item_table db → references equipment0 weapon_profile0 item = false) →
     selected = []).
Proof.
  intros Hexp selected.
  assert (Hsame : List.filter
            (λ item, references equipment0 weapon_profile0 item
                     && id_in (expansion item) (map expansion_id expansions)
                     && no_kwargs item) (item_table db) = selected).
  { subst selected. apply filter_ext. intros item. unfold no_kwargs. by rewrite andb_true_r. }
  assert (Hunguarded :
    unguarded_expansion_items_for_equipment db rule_inputs equipment0 weapon_profile0
      no_kwargs = Ok selected).
  { unfold unguarded_expansion_items_for_equipment. rewrite Hexp. simpl. by rewrite Hsame. }
  assert (Hempty :
    List.filter (references equipment0 weapon_profile0) (item_table db) = [] → selected = []).
  { subst selected. clear. induction (item_table db) as [|item t IH]; [done |].
    simpl. destruct (references equipment0 weapon_profile0 item); [done |]. simpl. exact IH. }
  split; [| split].
  - unfold get_applicable_expansion_items_for_equipment.
    destruct (exists_ (List.filter (references equipment0 weapon_profile0) (item_table db)))
      eqn:Hex; simpl.
    + rewrite Hexp. simpl. by rewrite Hsame.
    + apply exists_false in Hex. by rewrite (Hempty Hex).
  - exact Hunguarded.
  - intros Hnone. apply Hempty.
    clear -Hnone. induction (item_table db) as [|item t IH]; [done |].
    simpl. rewrite (Hnone item) by apply list_elem_of_here.
    apply IH. intros i Hi. apply Hnone. by apply list_elem_of_further.
Qed.

Lemma expansion_items_for_equipment_witness :
  get_applicable_expansion_items_for_equipment Examples.overwrite_store Examples.house_inputs
    Examples.lasgun None no_kwargs = Ok [Examples.discounted; Examples.undiscounted]
  ∧ get_applicable_expansion_items_for_equipment Examples.overwrite_store Examples.house_inputs
      Examples.autogun None no_kwargs = Ok [].
Proof.
  split.
  - exact (proj1 (expansion_items_for_equipment Examples.overwrite_store Examples.house_inputs
                    Examples.lasgun None
                    [Examples.first_expansion; Examples.second_expansion] eq_refl)).
  - exact (proj1 (expansion_items_for_equipment Examples.overwrite_store Examples.house_inputs
                    Examples.autogun None
                    [Examples.first_expansion; Examples.second_expansion] eq_refl)).
Defined.

(** C5 (as stated) fails: for the autogun, which no item row references, and
    a fighter whose category does not resolve, the early return answers the
    empty collection where the query without it raises. *)
Lemma guard_hides_exception :
  ¬ guard_is_pure Examples.overwrite_store Examples.uncategorised_inputs
      Examples.autogun None.
Proof. unfold guard_is_pure. vm_compute. discriminate. Qed.

(** X13: without an item row for the (equipment, weapon profile) pair the
    items query returns the empty collection on every input and for every
    extra filter, also on inputs on which the bulk query raises. *)
Lemma guard_returns_empty db rule_inputs equipment0 weapon_profile0 kwargs :
  (∀ item, item ∈ item_table db → references equipment0 weapon_profile0 item = false) →
  get_applicable_expansion_items_for_equipment db rule_inputs equipment0 weapon_profile0 kwargs
  = Ok [].
Proof.
  intros Hnone. unfold get_applicable_expansion_items_for_equipment.
  replace (List.filter (references equipment0 weapon_profile0) (item_table db)) with
    (@nil ContentEquipmentListExpansionItem); [done |].
  induction (item_table db) as [|item t IH]; [done |].
  simpl. rewrite (Hnone item) by apply list_elem_of_here.
  apply IH. intros i Hi. apply Hnone. by apply list_elem_of_further.
Qed.

(** ** Equipment aggregation *)

Lemma filter_none {A} (p : A → bool) (l : list A) :
  (∀ x, x ∈ l → p x = false) → List.filter p l = [].
Proof.
  induction l as [|x l IH]; intros Hnone; [done |].
  simpl. rewrite (Hnone x) by apply list_elem_of_here.
  apply IH. intros y Hy. apply Hnone. by apply list_elem_of_further.
Qed.

(** One loop iteration changes the base override of an equipment only when
    the item is a base-level item for it. *)
Lemma record_item_cost (data : gmap Id EquipmentData) item (k : Id) :
  record_item data item !! k ≫= data_cost
  = if base_level k item then cost item else data !! k ≫= data_cost.
Proof.
  unfold record_item, base_level.
  destruct (Pos.eqb_spec (equipment item) k) as [<- | Hne]; simpl.
  - destruct (data !! equipment item) eqn:Hd; destruct (weapon_profile_id item);
      rewrite lookup_alter_eq, ?lookup_insert_eq, ?Hd; done.
  - destruct (data !! equipment item) eqn:Hd; destruct (weapon_profile_id item);
      rewrite lookup_alter_ne, ?lookup_insert_ne by done; done.
Qed.

Lemma record_item_keys (data : gmap Id EquipmentData) item (k : Id) :
  is_Some (record_item data item !! k) ↔ is_Some (data !! k) ∨ equipment item = k.
Proof.
  unfold record_item.
  destruct (decide (equipment item = k)) as [<- | Hne].
  - split; [by right | intros _].
    destruct (data !! equipment item) eqn:Hd; destruct (weapon_profile_id item);
      rewrite lookup_alter_eq, ?lookup_insert_eq, ?Hd; by eexists.
  - destruct (data !! equipment item) eqn:Hd; destruct (weapon_profile_id item);
      rewrite lookup_alter_ne, ?lookup_insert_ne by done;
      (split; [by left | by intros [? | ?]]).
Qed.

(** Last write wins: after the loops the base override of an equipment is the
    cost of the last base-level item visited for it. *)
Lemma collect_cost items (data : gmap Id EquipmentData) (k : Id) :
  fold_left record_item items data !! k ≫= data_cost
  = match last (List.filter (base_level k) items) with
    | Some item => cost item
    | None => data !! k ≫= data_cost
    end.
Proof.
  induction items as [|item items IH] using rev_ind; [done |].
  rewrite fold_left_app, List.filter_app. simpl. rewrite record_item_cost.
  destruct (base_level k item); simpl.
  - by rewrite last_snoc.
  - by rewrite app_nil_r.
Qed.

Lemma collect_keys items (data : gmap Id EquipmentData) (k : Id) :
  is_Some (fold_left record_item items data !! k)
  ↔ is_Some (data !! k) ∨ ∃ item, item ∈ items ∧ equipment item = k.
Proof.
  induction items as [|item items IH] using rev_ind; simpl.
  - split; [by left | intros [H | (item & Hin & _)]; [done | by apply elem_of_nil in Hin]].
  - rewrite fold_left_app. simpl. rewrite record_item_keys, IH. split.
    + intros [[H | (i & Hi & Hk)] | Hk].
      * by left.
      * right. exists i. split; [| done]. apply elem_of_app. by left.
      * right. exists item. split; [| done]. apply elem_of_app. right. apply list_elem_of_here.
    + intros [H | (i & Hi & Hk)]; [by left; left |].
      apply elem_of_app in Hi as [Hi | Hi].
      * left. right. by exists i.
      * apply list_elem_of_singleton in Hi. subst i. by right.
Qed.

Lemma collect_equipment_data_cost db expansions (k : Id) :
  collect_equipment_data db expansions !! k ≫= data_cost
  = base_override (visited_items db expansions) k.
Proof.
  unfold collect_equipment_data, base_override. rewrite collect_cost.
  by destruct (last (List.filter (base_level k) (visited_items db expansions))).
Qed.

(** The [Case] over the clauses of a dictionary is a lookup with a default. *)
Lemma case_when_lookup (m : gmap Id Z) (d : Z) (k : Id) :
  case_when (map_to_list m) d k = default d (m !! k).
Proof.
  rewrite <- (list_to_map_to_list m) at 2.
  unfold case_when. induction (map_to_list m) as [|[i x] l IH]; [done |].
  rewrite list_to_map_cons. simpl.
  destruct (Pos.eqb_spec i k) as [-> | Hne].
  - by rewrite lookup_insert_eq.
  - by rewrite lookup_insert_ne.
Qed.

(** The visited items are the items of the selected expansions. *)
Lemma visited_items_spec db expansions item :
  item ∈ visited_items db expansions
  ↔ ∃ x, x ∈ expansion_table db ∧ expansion_id x ∈ map expansion_id expansions
         ∧ item ∈ items_all db x.
Proof.
  unfold visited_items. rewrite list_elem_of_In, in_concat. split.
  - intros (l & Hl & Hitem). apply list_elem_of_In in Hl, Hitem.
    apply list_elem_of_fmap in Hl as (x & -> & Hx).
    apply elem_of_order_by, filter_In_elem in Hx as [Hx Hid].
    apply id_in_spec in Hid. by exists x.
  - intros (x & Hx & Hid & Hitem). exists (items_all db x).
    rewrite <- !list_elem_of_In. split; [| done].
    apply list_elem_of_fmap. exists x. split; [done |].
    apply elem_of_order_by, filter_In_elem. split; [done |]. by apply id_in_spec.
Qed.

Lemma fst_annotate {A B} (g : A → B) (l : list A) : (map (λ e, (e, g e)) l).*1 = l.
Proof. induction l as [|x l IH]; [done |]. simpl. f_equal. exact IH. Qed.

(** X15: the equipment query returns exactly the equipment rows that some
    item of an applicable expansion is for, be the item base-level or
    profile-level. *)
Lemma get_expansion_equipment_rows db rule_inputs expansions out e :
  get_applicable_expansions db rule_inputs = Ok expansions →
  get_expansion_equipment db rule_inputs = Ok out →
  e ∈ out.*1
  ↔ e ∈ equipment_table db
    ∧ ∃ item, item ∈ visited_items db expansions ∧ equipment item = equipment_id e.
Proof.
  intros Hexp. unfold get_expansion_equipment. rewrite Hexp. simpl.
  assert (Hrows : ∀ g : ContentEquipment → Z,
    e ∈ (map (λ e, (e, g e))
           (List.filter
              (λ e, id_in (equipment_id e)
                      (map fst (map_to_list (collect_equipment_data db expansions))))
              (equipment_table db))).*1
    ↔ e ∈ equipment_table db
      ∧ ∃ item, item ∈ visited_items db expansions ∧ equipment item = equipment_id e).
  { intros g. rewrite fst_annotate.
    rewrite filter_In_elem, id_in_spec. apply and_iff_compat_l.
    rewrite list_elem_of_fmap. unfold collect_equipment_data.
    transitivity (is_Some (fold_left record_item (visited_items db expansions) ∅
                           !! equipment_id e)).
    - split.
      + intros ([i d] & -> & Hin). apply elem_of_map_to_list in Hin. by eexists.
      + intros [d Hd]. exists (equipment_id e, d). split; [done |].
        by apply elem_of_map_to_list.
    - rewrite collect_keys, lookup_empty. split; [| by right].
      intros [[? [=]] | H]. done. }
  destruct (exists_ _); intros [= <-]; apply Hrows.
Qed.

(** C6 (amended): when the applicable expansions are computed the equipment
    query returns, and the effective cost of every returned equipment is the
    cost of the last base-level item visited for it among the items of the
    applicable expansions when that cost is non-null, and the equipment's
    native cost otherwise; the expansions are visited in the order of their
    names and the items of each in the order of their equipment's name.  In
    particular an equipment that only has profile-level items keeps its
    native cost. *)
Theorem effective_cost_last_write (db : Store) (rule_inputs : ExpansionRuleInputs)
    (expansions : list ContentEquipmentListExpansion) :
  get_applicable_expansions db rule_inputs = Ok expansions →
  ∃ out, get_expansion_equipment db rule_inputs = Ok out
    ∧ ∀ e c, (e, c) ∈ out →
        c = default (cost_cast_int e)
              (base_override (visited_items db expansions) (equipment_id e))
        ∧ ((∀ item, item ∈ visited_items db expansions →
                    equipment item = equipment_id e → weapon_profile item ≠ None) →
           c = cost_cast_int e).
Proof.
  intros Hexp. unfold get_expansion_equipment. rewrite Hexp. simpl.
  set (data := collect_equipment_data db expansions).
  assert (Hcost : ∀ e : ContentEquipment,
    (omap data_cost data : gmap Id Z) !! equipment_id e
    = base_override (visited_items db expansions) (equipment_id e)).
  { intros e. rewrite lookup_omap. apply collect_equipment_data_cost. }
  assert (Hprofiles : ∀ e : ContentEquipment,
    (∀ item, item ∈ visited_items db expansions →
             equipment item = equipment_id e → weapon_profile item ≠ None) →
    base_override (visited_items db expansions) (equipment_id e) = None).
  { intros e Honly. unfold base_override. rewrite filter_none; [done |].
    intros item Hitem. unfold base_level, weapon_profile_id.
    destruct (Pos.eqb_spec (equipment item) (equipment_id e)) as [Heq | Hne]; [| done].
    specialize (Honly item Hitem Heq). by destruct (weapon_profile item). }
  assert (Hgoal : ∀ e c,
    c = default (cost_cast_int e)
          (base_override (visited_items db expansions) (equipment_id e)) →
    c = default (cost_cast_int e)
          (base_override (visited_items db expansions) (equipment_id e))
    ∧ ((∀ item, item ∈ visited_items db expansions →
                equipment item = equipment_id e → weapon_profile item ≠ None) →
       c = cost_cast_int e)).
  { intros e c Hc. split; [done |]. intros Honly. by rewrite Hc, (Hprofiles e Honly). }
  destruct (exists_ (map_to_list (omap data_cost data))) eqn:Hwhen.
  - eexists. split; [done |]. intros e c Hin.
    apply list_elem_of_fmap in Hin as (e' & [= -> ->] & _).
    apply Hgoal. by rewrite case_when_lookup, Hcost.
  - eexists. split; [done |]. intros e c Hin.
    apply list_elem_of_fmap in Hin as (e' & [= -> ->] & _).
    apply Hgoal. rewrite <- Hcost.
    apply exists_false, map_to_list_empty_iff in Hwhen. by rewrite Hwhen, lookup_empty.
Qed.

Lemma effective_cost_last_write_witness :
  ∃ out, get_expansion_equipment Examples.overwrite_store Examples.house_inputs = Ok out
    ∧ ∀ e c, (e, c) ∈ out →
        c = default (cost_cast_int e)
              (base_override
                 (visited_items Examples.overwrite_store
                    [Examples.first_expansion; Examples.second_expansion])
                 (equipment_id e))
        ∧ ((∀ item,
              item ∈ visited_items Examples.overwrite_store
                       [Examples.first_expansion; Examples.second_expansion] →
              equipment item = equipment_id e → weapon_profile item ≠ None) →
           c = cost_cast_int e).
Proof.
  apply (effective_cost_last_write Examples.overwrite_store Examples.house_inputs
           [Examples.first_expansion; Examples.second_expansion]).
  vm_compute. reflexivity.
Defined.

(** The visiting order is the order of the names, not of the rows: with the
    override in the expansion named "B" and the null cost in the one named
    "A", the override is written last and is the effective cost. *)
Example visits_in_name_order :
  visited_items Examples.renamed_store [Examples.late_expansion; Examples.early_expansion]
  = [Examples.undiscounted; Examples.discounted]
  ∧ get_expansion_equipment Examples.renamed_store Examples.house_inputs
    = Ok [(Examples.lasgun, 10%Z)].
Proof. split; vm_compute; reflexivity. Qed.

(** C6 (as stated) fails: the first expansion supplies the override 10 for
    the lasgun, the second, visited later, has a base-level item for it with
    a null cost, and the lasgun is returned at its native cost 30. *)
Lemma null_cost_overwrites_override :
  ¬ override_whenever_supplied Examples.overwrite_store Examples.house_inputs.
Proof.
  intros Hclaim.
  destruct (Hclaim [Examples.first_expansion; Examples.second_expansion]
              [(Examples.lasgun, 30%Z)] Examples.lasgun 30%Z) as [Hoverride _].
  - vm_compute. reflexivity.
  - vm_compute. reflexivity.
  - apply list_elem_of_here.
  - destruct Hoverride as (x & item & _ & Hitem & _ & _ & Hcost).
    + exists 10%Z, Examples.first_expansion, Examples.discounted.
      repeat split; [apply list_elem_of_here | apply list_elem_of_here].
    + apply items_all_spec in Hitem as [Hitem _]. simpl in Hitem.
      apply elem_of_cons in Hitem as [-> | Hitem]; [discriminate Hcost |].
      apply list_elem_of_singleton in Hitem. subst item. discriminate Hcost.
Qed.

(** ** Validation errors *)

Lemma clean_raises item :
  clean item = Raise ValidationError
  ↔ ∃ wp, weapon_profile item = Some wp ∧ profile_equipment wp ≠ equipment item.
Proof.
  unfold clean. destruct (weapon_profile item) as [wp|].
  - destruct (Pos.eqb_spec (profile_equipment wp) (equipment item)) as [Heq | Hne]; simpl.
    + split; [done | intros (wp' & [= <-] & Hne); done].
    + split; [intros _; by exists wp | done].
  - split; [done | by intros (wp & [=] & _)].
Qed.

Lemma clean_result item : clean item = Ok () ∨ clean item = Raise ValidationError.
Proof.
  unfold clean. destruct (weapon_profile item) as [wp|]; [| by left].
  destruct (negb _); [by right | by left].
Qed.

Lemma match_no_validation_error rule rule_inputs :
  ¬ raises (match_ rule rule_inputs) ValidationError.
Proof.
  unfold raises, match_, match_by_attribute, match_by_house, match_by_fighter_category.
  destruct (rule_variant rule); destruct (input_list rule_inputs);
    destruct (input_fighter rule_inputs) as [f|]; try done;
    repeat lazymatch goal with
    | |- context [if ?b then _ else _] => destruct b
    | |- context [match get_category ?f with _ => _ end] => destruct (get_category f)
    end; done.
Qed.

Lemma applies_to_loop_no_validation_error rs rule_inputs :
  ¬ raises (applies_to_loop rs rule_inputs) ValidationError.
Proof.
  unfold raises. induction rs as [|r rs IH]; simpl; [done |].
  intros H. apply bind_raise in H as [H | (m & _ & H)].
  - by apply match_no_validation_error in H.
  - destruct (negb m); [done | by apply IH].
Qed.

Lemma get_applicable_expansions_no_validation_error db rule_inputs :
  ¬ raises (get_applicable_expansions db rule_inputs) ValidationError.
Proof.
  unfold raises, get_applicable_expansions, applicable_rules.
  destruct (input_list rule_inputs); [| done].
  destruct (input_fighter rule_inputs) as [f|]; [| done].
  by destruct (get_category f).
Qed.

(** C9: [clean] raises the validation error exactly when the item's weapon
    profile is set and does not belong to the item's equipment, and accepts
    the item otherwise; none of [match], [applies_to],
    [get_applicable_expansions], the items query and [get_expansion_equipment]
    raises a validation error on any store and input. *)
Theorem validation_error_only_from_clean (item : ContentEquipmentListExpansionItem) :
  (raises (clean item) ValidationError
   ↔ ∃ wp, weapon_profile item = Some wp ∧ profile_equipment wp ≠ equipment item)
  ∧ (clean item = Ok () ∨ raises (clean item) ValidationError)
  ∧ ∀ db rule self rule_inputs equipment0 weapon_profile0 kwargs,
      ¬ raises (match_ rule rule_inputs) ValidationError
      ∧ ¬ raises (applies_to db self rule_inputs) ValidationError
      ∧ ¬ raises (get_applicable_expansions db rule_inputs) ValidationError
      ∧ ¬ raises (get_applicable_expansion_items_for_equipment db rule_inputs
                    equipment0 weapon_profile0 kwargs) ValidationError
      ∧ ¬ raises (get_expansion_equipment db rule_inputs) ValidationError.
Proof.
  split; [apply clean_raises | split; [apply clean_result |]].
  intros db rule self rule_inputs equipment0 weapon_profile0 kwargs.
  pose proof (get_applicable_expansions_no_validation_error db rule_inputs) as Hbulk.
  repeat split.
  - apply match_no_validation_error.
  - apply applies_to_loop_no_validation_error.
  - exact Hbulk.
  - unfold raises, get_applicable_expansion_items_for_equipment.
    destruct (negb _); [done |].
    intros H. apply bind_raise in H as [H | (x & _ & H)]; [by apply Hbulk | done].
  - unfold raises, get_expansion_equipment.
    intros H. apply bind_raise in H as [H | (x & _ & H)]; [by apply Hbulk |].
    by destruct (exists_ _).
Qed.

Lemma validation_error_only_from_clean_witness :
  raises (clean Examples.mismatched) ValidationError.
Proof.
  apply (proj1 (validation_error_only_from_clean Examples.mismatched)).
  exists Examples.hotshot. split; [reflexivity | discriminate].
Defined.

(** ** Combined equipment lists *)

Module CombinedEquipmentListsFacts.
Import CombinedEquipmentLists.

(** C7: the source fighters of a fighter are its legacy fighter followed by
    its own content fighter when it has a legacy, and its own content
    fighter alone when it has none. *)
Theorem equipment_list_fighters_order (f : ListFighter) :
  (∀ legacy, legacy_content_fighter f = Some legacy →
             equipment_list_fighters f = [legacy; content_fighter f])
  ∧ (legacy_content_fighter f = None →
     equipment_list_fighters f = [content_fighter f]).
Proof. unfold equipment_list_fighters. split; [intros legacy -> | intros ->]; done. Qed.

Lemma equipment_list_fighters_order_witness :
  equipment_list_fighters Examples.hunt_leader = [9%positive; 8%positive]
  ∧ equipment_list_fighters Examples.plain_leader = [8%positive].
Proof.
  split.
  - apply (proj1 (equipment_list_fighters_order Examples.hunt_leader) 9%positive).
    reflexivity.
  - apply (proj2 (equipment_list_fighters_order Examples.plain_leader)). reflexivity.
Defined.

Lemma legacy_overrides entries f legacy equipment0 weapon_profile0 :
  legacy_content_fighter f = Some legacy →
  List.filter (λ e, Pos.eqb (fighter e) legacy)
    (overrides entries f equipment0 weapon_profile0)
  = List.filter (λ e, Pos.eqb (fighter e) legacy && same_key equipment0 weapon_profile0 e)
      entries.
Proof.
  intros Hlegacy. unfold overrides, equipment_list_fighters. rewrite Hlegacy.
  induction entries as [|e entries IH]; [done |].
  cbn [List.filter]. unfold id_in at 1. cbn [existsb].
  destruct (Pos.eqb (fighter e) legacy) eqn:Hl;
    destruct (same_key equipment0 weapon_profile0 e);
    destruct (Pos.eqb (fighter e) (content_fighter f));
    cbn [orb andb List.filter]; rewrite ?Hl; by rewrite IH.
Qed.

Lemma base_overrides entries f legacy equipment0 weapon_profile0 :
  legacy_content_fighter f = Some legacy →
  entry_of entries legacy equipment0 weapon_profile0 = None →
  overrides entries f equipment0 weapon_profile0
  = List.filter
      (λ e, Pos.eqb (fighter e) (content_fighter f) && same_key equipment0 weapon_profile0 e)
      entries.
Proof.
  intros Hlegacy. unfold entry_of, overrides, equipment_list_fighters. rewrite Hlegacy.
  induction entries as [|e entries IH]; [done |].
  cbn [List.filter]. unfold id_in at 1. cbn [existsb].
  destruct (Pos.eqb (fighter e) legacy);
    destruct (same_key equipment0 weapon_profile0 e);
    destruct (Pos.eqb (fighter e) (content_fighter f));
    cbn [orb andb List.filter head]; try done; intros H; by rewrite IH.
Qed.

Lemma resolve_cost_legacy entries f legacy equipment0 weapon_profile0 el :
  legacy_content_fighter f = Some legacy →
  entry_of entries legacy equipment0 weapon_profile0 = Some el →
  resolve_cost entries f equipment0 weapon_profile0 = Some (item_cost el).
Proof.
  intros Hlegacy Hel. unfold resolve_cost. rewrite Hlegacy.
  rewrite (legacy_overrides _ _ _ _ _ Hlegacy).
  unfold entry_of in Hel. destruct (List.filter _ entries) as [|x xs]; [done |].
  by injection Hel as ->.
Qed.

(** C8: for a fighter with a legacy fighter, when both the legacy source and
    the base source have an entry for an (equipment, weapon profile) key the
    resolved cost is the legacy entry's; when only one of the two sources
    has an entry the resolved cost is that entry's. *)
Theorem legacy_cost_takes_precedence (entries : list ContentFighterEquipmentListItem)
    (f : ListFighter) (legacy : Id) (equipment0 : Id) (weapon_profile0 : option Id) :
  legacy_content_fighter f = Some legacy →
  (∀ el eb,
     entry_of entries legacy equipment0 weapon_profile0 = Some el →
     entry_of entries (content_fighter f) equipment0 weapon_profile0 = Some eb →
     resolve_cost entries f equipment0 weapon_profile0 = Some (item_cost el))
  ∧ (∀ el,
       entry_of entries legacy equipment0 weapon_profile0 = Some el →
       entry_of entries (content_fighter f) equipment0 weapon_profile0 = None →
       resolve_cost entries f equipment0 weapon_profile0 = Some (item_cost el))
  ∧ (∀ eb,
       entry_of entries legacy equipment0 weapon_profile0 = None →
       entry_of entries (content_fighter f) equipment0 weapon_profile0 = Some eb →
       resolve_cost entries f equipment0 weapon_profile0 = Some (item_cost eb)).
Proof.
  intros Hlegacy. split; [| split].
  - intros el eb Hel _. by eapply resolve_cost_legacy.
  - intros el Hel _. by eapply resolve_cost_legacy.
  - intros eb Hnone Heb. unfold resolve_cost. rewrite Hlegacy.
    rewrite (legacy_overrides _ _ _ _ _ Hlegacy).
    unfold entry_of in Hnone.
    destruct (List.filter _ entries) as [|x xs] eqn:Hfilter; [| done].
    rewrite (base_overrides _ _ _ _ _ Hlegacy).
    + unfold entry_of in Heb. by rewrite Heb.
    + unfold entry_of. by rewrite Hfilter.
Qed.

Lemma legacy_cost_takes_precedence_witness :
  resolve_cost Examples.psyker_entries Examples.hunt_leader 1 None = Some 25%Z
  ∧ resolve_cost Examples.psyker_entries Examples.hunt_leader 3 None = Some 45%Z
  ∧ resolve_cost Examples.psyker_entries Examples.hunt_leader 2 None = Some 35%Z.
Proof.
  split; [| split].
  - exact (proj1 (legacy_cost_takes_precedence Examples.psyker_entries
                    Examples.hunt_leader 9 1 None eq_refl)
             Examples.legacy_psyker Examples.base_psyker eq_refl eq_refl).
  - exact (proj1 (proj2 (legacy_cost_takes_precedence Examples.psyker_entries
                           Examples.hunt_leader 9 3 None eq_refl))
             Examples.legacy_gear eq_refl eq_refl).
  - exact (proj2 (proj2 (legacy_cost_takes_precedence Examples.psyker_entries
                           Examples.hunt_leader 9 2 None eq_refl))
             Examples.base_sanctioned eq_refl eq_refl).
Defined.

End CombinedEquipmentListsFacts.

(** * Further properties of the rule engine *)

(** ** Rule matching: house rules and exceptions *)

(** X1: a house rule returns a boolean when the list is present, true exactly
    when the list's house is the rule's house, whatever the fighter; with the
    list absent it raises the attribute error of dereferencing [None]. *)
Theorem house_rule_match (rule : ContentEquipmentListExpansionRule) (house : Id)
    (rule_inputs : ExpansionRuleInputs) :
  rule_variant rule = ByHouse house →
  (∀ l, input_list rule_inputs = Some l →
        ∃ b, match_ rule rule_inputs = Ok b ∧ (b = true ↔ content_house l = house))
  ∧ (input_list rule_inputs = None → match_ rule rule_inputs = Raise AttributeError).
Proof.
  intros Hrule. unfold match_, match_by_house. rewrite Hrule. split.
  - intros l ->. eexists. split; [done |]. apply Pos.eqb_eq.
  - by intros ->.
Qed.

Lemma house_rule_match_witness :
  (∀ l, input_list Examples.house_inputs = Some l →
        ∃ b, match_ Examples.house_rule Examples.house_inputs = Ok b
             ∧ (b = true ↔ content_house l = 1%positive))
  ∧ (input_list Examples.house_inputs = None →
     match_ Examples.house_rule Examples.house_inputs = Raise AttributeError).
Proof.
  apply (house_rule_match Examples.house_rule 1 Examples.house_inputs). reflexivity.
Defined.

(** X2: [match] raises in two situations only: on a row of the polymorphic
    base class (not implemented), and on an attribute or house rule when the
    input has no list (attribute error).  A fighter-category rule never
    raises. *)
Theorem match_raises (rule : ContentEquipmentListExpansionRule)
    (rule_inputs : ExpansionRuleInputs) (e : exn) :
  match_ rule rule_inputs = Raise e
  ↔ (rule_variant rule = BaseRule ∧ e = NotImplementedError)
    ∨ (((∃ a vs, rule_variant rule = ByAttribute a vs) ∨ (∃ h, rule_variant rule = ByHouse h))
       ∧ input_list rule_inputs = None ∧ e = AttributeError).
Proof.
  unfold match_, match_by_attribute, match_by_house, match_by_fighter_category.
  destruct (rule_variant rule) as [|a vs|h|cats].
  - split.
    + intros [= <-]. by left.
    + intros [[_ ->] | [[(a & vs & [=]) | (h & [=])] _]]. done.
  - destruct (input_list rule_inputs) as [l|].
    + split.
      * destruct (negb (exists_ (attributes_filter l a))); [done |].
        by destruct (negb (exists_ vs)).
      * intros [[[=] _] | (_ & [=] & _)].
    + split.
      * intros [= <-]. right. split; [left; by exists a, vs | done].
      * intros [[[=] _] | (_ & _ & ->)]. done.
  - destruct (input_list rule_inputs) as [l|].
    + split; [done | intros [[[=] _] | (_ & [=] & _)]].
    + split.
      * intros [= <-]. right. split; [right; by exists h | done].
      * intros [[[=] _] | (_ & _ & ->)]. done.
  - split.
    + destruct (input_fighter rule_inputs) as [f|]; [| done].
      destruct (negb (truthy (get_category f))); [done |].
      by destruct (get_category f).
    + intros [[[=] _] | ([(a & vs & [=]) | (h & [=])] & _)].
Qed.

(** ** Applicability of one expansion *)

Lemma applies_to_loop_first_failure pre r post rule_inputs :
  (∀ p, p ∈ pre → match_ p rule_inputs = Ok true) →
  match_ r rule_inputs ≠ Ok true →
  applies_to_loop (pre ++ r :: post)%list rule_inputs = match_ r rule_inputs.
Proof.
  intros Hpre Hr. induction pre as [|p pre IH]; simpl.
  - destruct (match_ r rule_inputs) as [[|]|e]; done.
  - rewrite (Hpre p) by apply list_elem_of_here. simpl.
    apply IH. intros q Hq. apply Hpre. by apply list_elem_of_further.
Qed.

(** X3: [applies_to] stops at the first rule whose [match] does not return
    true and answers what that rule answered, its false or its exception; the
    rules after it are not evaluated, so an exception one of them would raise
    does not surface. *)
Theorem applies_to_first_failure (db : Store) (self : ContentEquipmentListExpansion)
    (rule_inputs : ExpansionRuleInputs)
    (pre post : list ContentEquipmentListExpansionRule)
    (r : ContentEquipmentListExpansionRule) :
  rules_all db self = (pre ++ r :: post)%list →
  (∀ p, p ∈ pre → match_ p rule_inputs = Ok true) →
  match_ r rule_inputs ≠ Ok true →
  applies_to db self rule_inputs = match_ r rule_inputs.
Proof.
  intros Hrules Hpre Hr. unfold applies_to. rewrite Hrules.
  by apply applies_to_loop_first_failure.
Qed.

Lemma applies_to_first_failure_witness :
  applies_to Examples.guarded_store Examples.guarded_expansion Examples.no_inputs = Ok false
  ∧ match_ Examples.base_rule Examples.no_inputs = Raise NotImplementedError.
Proof.
  split; [| reflexivity].
  apply (applies_to_first_failure Examples.guarded_store Examples.guarded_expansion
           Examples.no_inputs [] [Examples.base_rule] Examples.leader_rule).
  - reflexivity.
  - intros p Hp. by apply elem_of_nil in Hp.
  - discriminate.
Defined.

(** ** What the bulk query selects *)

Lemma applicable_rules_spec db rule_inputs applicable :
  applicable_rules db rule_inputs = Ok applicable →
  ∃ l, input_list rule_inputs = Some l
       ∧ applicable = List.filter (candidate l (input_fighter rule_inputs)) (rule_table db).
Proof.
  unfold applicable_rules, candidate.
  destruct (input_list rule_inputs) as [l|]; [| done].
  destruct (input_fighter rule_inputs) as [f|].
  - destruct (get_category f) as [c|]; [| done].
    intros [= <-]. by exists l.
  - intros [= <-]. by exists l.
Qed.

Lemma selected_spec db applicable e :
  Nat.eqb (matched db applicable e) (total db e) && negb (Nat.eqb (total db e) 0) = true
  ↔ rules_all db e ≠ []
    ∧ ∀ r, r ∈ rules_all db e → rule_id r ∈ map rule_id applicable.
Proof.
  unfold matched, total. rewrite filter_length_all, andb_true_iff.
  set (ids := remove_dups (map rule_id (rules_all db e))).
  assert (Hsome : negb (Nat.eqb (length ids) 0) = true ↔ rules_all db e ≠ []).
  { rewrite negb_true_iff, Nat.eqb_neq. subst ids.
    destruct (rules_all db e) as [|r rs]; [done |].
    split; [done | intros _ Hlen].
    assert (rule_id r ∈ remove_dups (map rule_id (r :: rs))) as Hin
      by (apply elem_of_remove_dups; apply list_elem_of_here).
    destruct (remove_dups _); [by apply elem_of_nil in Hin | done]. }
  assert (Hall : forallb (λ i, id_in i (map rule_id applicable)) ids = true
                 ↔ ∀ r, r ∈ rules_all db e → rule_id r ∈ map rule_id applicable).
  { rewrite forallb_forall. subst ids. split.
    - intros Hall r Hr. apply id_in_spec, Hall.
      apply list_elem_of_In, elem_of_remove_dups, list_elem_of_fmap. by exists r.
    - intros Hall i Hi.
      apply list_elem_of_In, elem_of_remove_dups, list_elem_of_fmap in Hi as (r & -> & Hr).
      by apply id_in_spec, Hall. }
  tauto.
Qed.

(** X4: the count test of the bulk query is a containment test: it returns
    exactly the expansions of the table that have at least one rule and all
    of whose rules are candidate rules. *)
Theorem get_applicable_expansions_selects (db : Store) (rule_inputs : ExpansionRuleInputs)
    (applicable : list ContentEquipmentListExpansionRule) :
  applicable_rules db rule_inputs = Ok applicable →
  ∃ expansions,
    get_applicable_expansions db rule_inputs = Ok expansions
    ∧ ∀ e, e ∈ expansions
           ↔ e ∈ expansion_table db ∧ rules_all db e ≠ []
             ∧ ∀ r, r ∈ rules_all db e → rule_id r ∈ map rule_id applicable.
Proof.
  intros Happ. unfold get_applicable_expansions. rewrite Happ. simpl.
  eexists. split; [done |]. intros e.
  rewrite filter_In_elem. apply and_iff_compat_l. apply selected_spec.
Qed.

Lemma get_applicable_expansions_selects_witness :
  ∃ expansions,
    get_applicable_expansions Examples.mixed_store Examples.house_inputs = Ok expansions
    ∧ ∀ e, e ∈ expansions
           ↔ e ∈ expansion_table Examples.mixed_store
             ∧ rules_all Examples.mixed_store e ≠ []
             ∧ ∀ r, r ∈ rules_all Examples.mixed_store e →
                    rule_id r ∈ map rule_id [Examples.house_rule].
Proof.
  apply (get_applicable_expansions_selects Examples.mixed_store Examples.house_inputs
           [Examples.house_rule]).
  reflexivity.
Defined.

Lemma not_applicable_excludes db rule_inputs applicable expansions e r :
  rule_primary_key db →
  applicable_rules db rule_inputs = Ok applicable →
  get_applicable_expansions db rule_inputs = Ok expansions →
  r ∈ rules_all db e →
  r ∉ applicable →
  e ∉ expansions.
Proof.
  intros Hkey Happ Hexp Hr Hnot He.
  unfold get_applicable_expansions in Hexp. rewrite Happ in Hexp. injection Hexp as <-.
  apply filter_In_elem in He as [_ He]. apply selected_spec in He as [_ Hall].
  specialize (Hall r Hr). apply list_elem_of_fmap in Hall as (r' & Hid & Hr').
  apply Hnot. replace r with r'; [done |]. symmetry.
  apply applicable_rules_spec in Happ as (l & _ & ->).
  apply filter_In_elem in Hr' as [Hr' _]. apply filter_In_elem in Hr as [Hr _].
  by apply Hkey.
Qed.

(** X5: on a store whose rule ids are primary keys, an input without a
    fighter never selects an expansion that has a fighter-category rule. *)
Theorem fighter_rules_need_fighter (db : Store) (rule_inputs : ExpansionRuleInputs)
    (expansions : list ContentEquipmentListExpansion) (e : ContentEquipmentListExpansion)
    (r : ContentEquipmentListExpansionRule) (cats : list string) :
  rule_primary_key db →
  input_fighter rule_inputs = None →
  get_applicable_expansions db rule_inputs = Ok expansions →
  r ∈ rules_all db e →
  rule_variant r = ByFighterCategory cats →
  e ∉ expansions.
Proof.
  intros Hkey Hnone Hexp Hr Hcats.
  destruct (applicable_rules db rule_inputs) as [applicable|err] eqn:Happ;
    [| unfold get_applicable_expansions in Hexp; by rewrite Happ in Hexp].
  apply (not_applicable_excludes db rule_inputs applicable expansions e r); try done.
  apply applicable_rules_spec in Happ as (l & _ & ->).
  intros Hin. apply filter_In_elem in Hin as [_ Hc].
  unfold candidate, list_rules in Hc. by rewrite Hnone, Hcats in Hc.
Qed.

(** X6: on a store whose rule ids are primary keys, the bulk query never
    selects an expansion that has an attribute rule listing no values, or a
    row of the polymorphic base class, whatever the input. *)
Theorem unlisted_rules_never_selected (db : Store) (rule_inputs : ExpansionRuleInputs)
    (expansions : list ContentEquipmentListExpansion) (e : ContentEquipmentListExpansion)
    (r : ContentEquipmentListExpansionRule) :
  rule_primary_key db →
  get_applicable_expansions db rule_inputs = Ok expansions →
  r ∈ rules_all db e →
  any_value r ∨ rule_variant r = BaseRule →
  e ∉ expansions.
Proof.
  intros Hkey Hexp Hr Hkind.
  destruct (applicable_rules db rule_inputs) as [applicable|err] eqn:Happ;
    [| unfold get_applicable_expansions in Hexp; by rewrite Happ in Hexp].
  apply (not_applicable_excludes db rule_inputs applicable expansions e r); try done.
  apply applicable_rules_spec in Happ as (l & _ & ->).
  intros Hin. apply filter_In_elem in Hin as [_ Hc].
  unfold candidate, list_rules, fighter_rules in Hc.
  destruct Hkind as [[a Ha] | Hbase]; [rewrite Ha in Hc | rewrite Hbase in Hc];
    destruct (input_fighter rule_inputs) as [f|]; try done;
    by destruct (get_category f).
Qed.

Ltac in_table H :=
  repeat (apply elem_of_cons in H as [-> | H]); try (by apply elem_of_nil in H).

Ltac primary_key :=
  let r := fresh "r" in
  let r' := fresh "r'" in
  let Hr := fresh "Hr" in
  let Hr' := fresh "Hr'" in
  intros r r' Hr Hr' ?; in_table Hr; in_table Hr'; done.

Lemma fighter_rules_need_fighter_witness :
  Examples.leaders_expansion ∉ [Examples.first_expansion].
Proof.
  apply (fighter_rules_need_fighter Examples.mixed_store Examples.house_inputs
           [Examples.first_expansion] Examples.leaders_expansion Examples.leader_rule
           ["LEADER"; "CHAMPION"]).
  - primary_key.
  - reflexivity.
  - reflexivity.
  - apply list_elem_of_further, list_elem_of_here.
  - reflexivity.
Defined.

Lemma unlisted_rules_never_selected_witness :
  Examples.outlaw_expansion ∉ (@nil ContentEquipmentListExpansion).
Proof.
  apply (unlisted_rules_never_selected Examples.attribute_store Examples.aligned_inputs
           [] Examples.outlaw_expansion Examples.any_value_rule).
  - primary_key.
  - reflexivity.
  - apply list_elem_of_here.
  - left. by exists 7%positive.
Defined.

(** ** Matching rules are candidate rules *)















(** ** The bulk query and [applies_to] *)

Lemma bulk_query_agrees_witness :
  get_applicable_expansions Examples.mixed_store Examples.house_leader_inputs
  = naive_applicable_expansions Examples.mixed_store Examples.house_leader_inputs.
Proof.
  apply (bulk_query_agrees Examples.mixed_store Examples.house_leader_inputs
           {| content_house := 1; attribute_assignments := [] |}).
  - reflexivity.
  - intros f [= <-]. by eexists.
  - primary_key.
  - intros r Hr. in_table Hr; reflexivity.
Defined.

Lemma attribute_rule_candidate_witness :
  match_ Examples.law_rule Examples.two_valued_inputs
  = Ok (candidate Examples.two_valued_list (input_fighter Examples.two_valued_inputs)
          Examples.law_rule).
Proof.
  apply (attribute_rule_candidate Examples.law_rule 7 [Examples.alignment_law]
           Examples.two_valued_inputs Examples.two_valued_list).
  - reflexivity.
  - reflexivity.
  - intros f [=].
  - discriminate.
  - intros v Hv. in_table Hv. reflexivity.
  - intros aa v Haa Hv Hid. in_table Hv. in_table Haa; done.
Defined.

(** X11: under the same conditions the two entry points agree on every
    expansion that has a rule: the bulk query returns exactly the expansions
    of the table with at least one rule for which [applies_to] returns
    true. *)
Theorem applicable_iff_applies_to (db : Store) (rule_inputs : ExpansionRuleInputs)
    (l : List_) :
  input_list rule_inputs = Some l →
  (∀ f, input_fighter rule_inputs = Some f → is_Some (get_category f)) →
  rule_primary_key db →
  (∀ r, r ∈ rule_table db →
        match_ r rule_inputs = Ok (candidate l (input_fighter rule_inputs) r)) →
  ∃ expansions,
    get_applicable_expansions db rule_inputs = Ok expansions
    ∧ ∀ e, e ∈ expansions
           ↔ e ∈ expansion_table db ∧ rules_all db e ≠ []
             ∧ applies_to db e rule_inputs = Ok true.
Proof.
  intros Hl Hcat Hkey Hmatch. unfold get_applicable_expansions.
  rewrite (applicable_rules_candidates db rule_inputs l Hl Hcat Hmatch). simpl.
  eexists. split; [done |]. intros e.
  rewrite filter_In_elem. apply and_iff_compat_l.
  rewrite (selected_iff_all_candidates db rule_inputs l Hkey e), andb_true_iff.
  unfold applies_to. rewrite applies_to_loop_true_iff, Forall_forall, forallb_forall.
  assert (Hsome : exists_ (rules_all db e) = true ↔ rules_all db e ≠ [])
    by (by destruct (rules_all db e)).
  assert (Hall :
    (∀ r, In r (rules_all db e) → candidate l (input_fighter rule_inputs) r = true)
    ↔ (∀ r, r ∈ rules_all db e → match_ r rule_inputs = Ok true)).
  { split; intros Hall r Hr.
    - rewrite Hmatch by (by apply filter_In_elem in Hr as [Hr _]).
      f_equal. by apply Hall, list_elem_of_In.
    - apply list_elem_of_In in Hr. specialize (Hall r Hr).
      rewrite Hmatch in Hall by (by apply filter_In_elem in Hr as [Hr _]).
      by injection Hall. }
  tauto.
Qed.

Lemma applicable_iff_applies_to_witness :
  ∃ expansions,
    get_applicable_expansions Examples.mixed_store Examples.house_leader_inputs
    = Ok expansions
    ∧ ∀ e, e ∈ expansions
           ↔ e ∈ expansion_table Examples.mixed_store
             ∧ rules_all Examples.mixed_store e ≠ []
             ∧ applies_to Examples.mixed_store e Examples.house_leader_inputs = Ok true.
Proof.
  apply (applicable_iff_applies_to Examples.mixed_store Examples.house_leader_inputs
           {| content_house := 1; attribute_assignments := [] |}).
  - reflexivity.
  - intros f [= <-]. by eexists.
  - primary_key.
  - intros r Hr. in_table Hr; reflexivity.
Defined.

(** ** Archived attribute assignments *)

Lemma attributes_filter_without_archived l a :
  attributes_filter (without_archived l) a = attributes_filter l a.
Proof.
  unfold attributes_filter, without_archived, active_attributes_cached. simpl. f_equal.
  induction (attribute_assignments l) as [|aa t IH]; [done |].
  simpl. destruct (archived aa) eqn:Harch; simpl.
  - by rewrite andb_false_r.
  - rewrite Harch, andb_true_r.
    destruct (Pos.eqb (cav_attribute (attribute_value aa)) a); by rewrite IH.
Qed.

Lemma match_without_archived rule l f :
  match_ rule {| input_list := Some (without_archived l); input_fighter := f |}
  = match_ rule {| input_list := Some l; input_fighter := f |}.
Proof.
  unfold match_, match_by_attribute, match_by_house. simpl.
  destruct (rule_variant rule); try done.
  by rewrite attributes_filter_without_archived.
Qed.

(** X12: archived attribute assignments have no influence on rule
    evaluation: dropping them from the list changes neither the answer of
    [match] for any rule nor the answer of [applies_to] for any expansion. *)
Theorem archived_assignments_ignored (db : Store)
    (rule : ContentEquipmentListExpansionRule) (self : ContentEquipmentListExpansion)
    (l : List_) (f : option ListFighter) :
  match_ rule {| input_list := Some (without_archived l); input_fighter := f |}
  = match_ rule {| input_list := Some l; input_fighter := f |}
  ∧ applies_to db self {| input_list := Some (without_archived l); input_fighter := f |}
    = applies_to db self {| input_list := Some l; input_fighter := f |}.
Proof.
  split; [apply match_without_archived |].
  unfold applies_to. induction (rules_all db self) as [|r rs IH]; [done |].
  simpl. by rewrite match_without_archived, IH.
Qed.

(** ** The items query: extra filters and exceptions *)

Lemma guard_returns_empty_witness :
  get_applicable_expansion_items_for_equipment Examples.overwrite_store Examples.no_inputs
    Examples.autogun None no_kwargs = Ok []
  ∧ get_applicable_expansions Examples.overwrite_store Examples.no_inputs
    = Raise AttributeError.
Proof.
  split; [| reflexivity].
  apply (guard_returns_empty Examples.overwrite_store Examples.no_inputs
           Examples.autogun None no_kwargs).
  intros item Hitem. in_table Hitem; reflexivity.
Defined.

Lemma filter_narrow {A} (p q : A → bool) (rows : list A) :
  List.filter (λ x, p x && q x) rows = List.filter q (List.filter (λ x, p x && true) rows).
Proof.
  induction rows as [|x rows IH]; [done |].
  simpl. destruct (p x); simpl; [| done]. destruct (q x); by rewrite IH.
Qed.

(** X14: the extra keyword filters only narrow the answer of the items query:
    with filters it returns the items of the unfiltered answer that pass
    them, in the same order, and it raises what the unfiltered query
    raises. *)
Theorem kwargs_narrow (db : Store) (rule_inputs : ExpansionRuleInputs)
    (equipment0 : ContentEquipment) (weapon_profile0 : option ContentWeaponProfile)
    (kwargs : ContentEquipmentListExpansionItem → bool) :
  get_applicable_expansion_items_for_equipment db rule_inputs equipment0 weapon_profile0
    kwargs
  = items ← get_applicable_expansion_items_for_equipment db rule_inputs equipment0
              weapon_profile0 no_kwargs;
    Ok (List.filter kwargs items).
Proof.
  unfold get_applicable_expansion_items_for_equipment.
  destruct (negb _); [done |].
  destruct (get_applicable_expansions db rule_inputs) as [expansions|e]; [| done].
  simpl. f_equal. unfold no_kwargs.
  apply (filter_narrow
           (λ item, references equipment0 weapon_profile0 item
                    && id_in (expansion item) (map expansion_id expansions))).
Qed.

(** X16: the bulk query raises the attribute error exactly when the input has
    no list; the equipment query raises exactly what the bulk query raises;
    the items query raises what the bulk query raises only when some item row
    references the pair, and otherwise returns. *)
Theorem expansion_queries_raise (db : Store) (rule_inputs : ExpansionRuleInputs) :
  (get_applicable_expansions db rule_inputs = Raise AttributeError
   ↔ input_list rule_inputs = None)
  ∧ (∀ e, get_expansion_equipment db rule_inputs = Raise e
          ↔ get_applicable_expansions db rule_inputs = Raise e)
  ∧ (∀ equipment0 weapon_profile0 kwargs e,
       get_applicable_expansion_items_for_equipment db rule_inputs equipment0
         weapon_profile0 kwargs = Raise e
       ↔ (∃ item, item ∈ item_table db ∧ references equipment0 weapon_profile0 item = true)
         ∧ get_applicable_expansions db rule_inputs = Raise e).
Proof.
  split; [| split].
  - unfold get_applicable_expansions, applicable_rules.
    destruct (input_list rule_inputs) as [l|]; [| done].
    destruct (input_fighter rule_inputs) as [f|]; [| done].
    by destruct (get_category f).
  - intros e. unfold get_expansion_equipment.
    destruct (get_applicable_expansions db rule_inputs) as [expansions|e'];
      [| by simpl; split; intros [= ->]].
    simpl. by destruct (exists_ _).
  - intros equipment0 weapon_profile0 kwargs e.
    unfold get_applicable_expansion_items_for_equipment.
    destruct (exists_ (List.filter (references equipment0 weapon_profile0) (item_table db)))
      eqn:Hex; simpl.
    + apply exists_true in Hex as [item Hitem]. apply filter_In_elem in Hitem.
      destruct (get_applicable_expansions db rule_inputs) as [expansions|e']; simpl.
      * split; [done | by intros [_ ?]].
      * split; [intros [= ->]; split; [by exists item | done] | by intros [_ [= ->]]].
    + apply exists_false in Hex. split; [done |].
      intros [(item & Hin & Href) _].
      assert (item ∈ List.filter (references equipment0 weapon_profile0) (item_table db))
        as Hitem by (by apply filter_In_elem).
      rewrite Hex in Hitem. by apply elem_of_nil in Hitem.
Qed.

(** ** The equipment query: rows, single overrides, profile overrides *)

Lemma get_expansion_equipment_rows_witness :
  Examples.lasgun ∈ [(Examples.lasgun, 30%Z); (Examples.autogun, 12%Z)].*1
  ↔ Examples.lasgun ∈ equipment_table Examples.mixed_store
    ∧ ∃ item,
        item ∈ visited_items Examples.mixed_store
                 [Examples.first_expansion; Examples.leaders_expansion]
        ∧ equipment item = equipment_id Examples.lasgun.
Proof.
  apply (get_expansion_equipment_rows Examples.mixed_store Examples.house_leader_inputs
           [Examples.first_expansion; Examples.leaders_expansion]
           [(Examples.lasgun, 30%Z); (Examples.autogun, 12%Z)] Examples.lasgun).
  - reflexivity.
  - vm_compute. reflexivity.
Defined.

Lemma get_expansion_equipment_closed_form db rule_inputs expansions :
  get_applicable_expansions db rule_inputs = Ok expansions →
  get_expansion_equipment db rule_inputs
  = Ok (map (λ e, (e, default (cost_cast_int e)
                        (base_override (visited_items db expansions) (equipment_id e))))
          (List.filter
             (λ e, id_in (equipment_id e)
                     (map fst (map_to_list (collect_equipment_data db expansions))))
             (equipment_table db))).
Proof.
  intros Hexp. unfold get_expansion_equipment. rewrite Hexp. simpl.
  assert (Hcost : ∀ e : ContentEquipment,
    (omap data_cost (collect_equipment_data db expansions) : gmap Id Z) !! equipment_id e
    = base_override (visited_items db expansions) (equipment_id e)).
  { intros e. rewrite lookup_omap. apply collect_equipment_data_cost. }
  destruct (exists_ _) eqn:Hwhen; f_equal; apply map_ext; intros e; f_equal.
  - by rewrite case_when_lookup, Hcost.
  - rewrite <- Hcost. apply exists_false, map_to_list_empty_iff in Hwhen.
    by rewrite Hwhen, lookup_empty.
Qed.

(** X17: when the items of the applicable expansions hold exactly one
    base-level item for a returned equipment, its effective cost is that
    item's cost, and the equipment's native cost when that cost is null. *)
Theorem single_base_item_cost (db : Store) (rule_inputs : ExpansionRuleInputs)
    (expansions : list ContentEquipmentListExpansion) (out : list (ContentEquipment * Z))
    (e : ContentEquipment) (c : Z) (item : ContentEquipmentListExpansionItem) :
  get_applicable_expansions db rule_inputs = Ok expansions →
  get_expansion_equipment db rule_inputs = Ok out →
  (e, c) ∈ out →
  List.filter (base_level (equipment_id e)) (visited_items db expansions) = [item] →
  c = default (cost_cast_int e) (cost item).
Proof.
  intros Hexp Hout Hin Hsingle.
  rewrite (get_expansion_equipment_closed_form db rule_inputs expansions Hexp) in Hout.
  injection Hout as <-.
  apply list_elem_of_fmap in Hin as (e' & [= -> ->] & _).
  unfold base_override. by rewrite Hsingle.
Qed.

Lemma single_base_item_cost_witness :
  12%Z = default (cost_cast_int Examples.autogun) (cost Examples.leader_autogun).
Proof.
  apply (single_base_item_cost Examples.mixed_store Examples.house_leader_inputs
           [Examples.first_expansion; Examples.leaders_expansion]
           [(Examples.lasgun, 30%Z); (Examples.autogun, 12%Z)]
           Examples.autogun 12%Z Examples.leader_autogun).
  - reflexivity.
  - vm_compute. reflexivity.
  - apply list_elem_of_further, list_elem_of_here.
  - reflexivity.
Defined.

Lemma record_item_profile (data : gmap Id EquipmentData) item (k p : Id) :
  record_item data item !! k ≫= (λ d, data_profiles d !! p)
  = if profile_level k p item then Some (cost item)
    else data !! k ≫= (λ d, data_profiles d !! p).
Proof.
  unfold record_item, profile_level.
  destruct (Pos.eqb_spec (equipment item) k) as [<- | Hne]; simpl.
  - destruct (data !! equipment item) as [d|] eqn:Hd;
      destruct (weapon_profile_id item) as [i|];
      rewrite lookup_alter_eq, ?lookup_insert_eq, ?Hd; simpl; try done;
      (destruct (Pos.eqb_spec i p) as [-> | Hip];
       [by rewrite lookup_insert_eq | by rewrite lookup_insert_ne]).
  - destruct (data !! equipment item) eqn:Hd; destruct (weapon_profile_id item);
      rewrite lookup_alter_ne, ?lookup_insert_ne by done; done.
Qed.

Lemma collect_profile items (data : gmap Id EquipmentData) (k p : Id) :
  fold_left record_item items data !! k ≫= (λ d, data_profiles d !! p)
  = match last (List.filter (profile_level k p) items) with
    | Some item => Some (cost item)
    | None => data !! k ≫= (λ d, data_profiles d !! p)
    end.
Proof.
  induction items as [|item items IH] using rev_ind; [done |].
  rewrite fold_left_app, List.filter_app. simpl. rewrite record_item_profile.
  destruct (profile_level k p item); simpl.
  - by rewrite last_snoc.
  - by rewrite app_nil_r.
Qed.

(** X18: profile overrides are recorded with last write wins as well: the
    override the aggregation holds for an equipment and a weapon profile is
    the cost, null or not, of the last item visited for that equipment with
    that profile, the expansions being visited in the order of their names;
    there is none when no such item was visited. *)
Theorem profile_override_last_write (db : Store)
    (expansions : list ContentEquipmentListExpansion) (k p : Id) :
  collect_equipment_data db expansions !! k ≫= (λ d, data_profiles d !! p)
  = cost <$> last (List.filter (profile_level k p) (visited_items db expansions)).
Proof.
  unfold collect_equipment_data. rewrite collect_profile.
  by destruct (last _).
Qed.

(** * Properties of the query-string tags *)

Module CustomTagsFacts.
Import CustomTags.

(** ** Dictionary operations *)

Lemma getlist_setlist d k vs k' :
  getlist (setlist d k vs) k' = if String.eqb k k' then vs else getlist d k'.
Proof.
  induction d as [|[k0 vs0] d IH]; simpl.
  - by destruct (String.eqb k k').
  - destruct (String.eqb_spec k0 k) as [-> | Hne]; simpl.
    + by destruct (String.eqb k k').
    + rewrite IH. destruct (String.eqb_spec k0 k') as [-> | Hne']; [| done].
      by destruct (String.eqb_spec k k').
Qed.

Lemma getlist_pop d k k' :
  getlist (pop d k) k' = if String.eqb k k' then [] else getlist d k'.
Proof.
  unfold pop. induction d as [|[k0 vs0] d IH]; simpl.
  - by destruct (String.eqb k k').
  - destruct (String.eqb_spec k0 k) as [-> | Hne]; simpl.
    + rewrite IH. by destruct (String.eqb k k').
    + rewrite IH. destruct (String.eqb_spec k0 k') as [-> | Hne']; [| done].
      by destruct (String.eqb_spec k k').
Qed.

Lemma has_key_setlist d k vs k' :
  has_key (setlist d k vs) k' = if String.eqb k k' then true else has_key d k'.
Proof.
  unfold has_key. induction d as [|[k0 vs0] d IH]; simpl.
  - by destruct (String.eqb k k').
  - destruct (String.eqb_spec k0 k) as [-> | Hne]; simpl.
    + by destruct (String.eqb k k').
    + rewrite IH. destruct (String.eqb_spec k0 k') as [-> | Hne']; [| done].
      by destruct (String.eqb_spec k k').
Qed.

Lemma has_key_pop d k k' :
  has_key (pop d k) k' = if String.eqb k k' then false else has_key d k'.
Proof.
  unfold has_key, pop. induction d as [|[k0 vs0] d IH]; simpl.
  - by destruct (String.eqb k k').
  - destruct (String.eqb_spec k0 k) as [-> | Hne]; simpl.
    + rewrite IH. by destruct (String.eqb k k').
    + rewrite IH. destruct (String.eqb_spec k0 k') as [-> | Hne']; [| done].
      by destruct (String.eqb_spec k k').
Qed.

Lemma has_key_spec d k : has_key d k = true ↔ k ∈ d.*1.
Proof.
  unfold has_key. rewrite existsb_exists, list_elem_of_fmap. split.
  - intros (kv & Hin & Heq). apply String.eqb_eq in Heq. exists kv.
    split; [done | by apply list_elem_of_In].
  - intros (kv & -> & Hin). exists kv. split; [by apply list_elem_of_In |].
    apply String.eqb_refl.
Qed.

Lemma getlist_missing d k : has_key d k = false → getlist d k = [].
Proof.
  unfold has_key. induction d as [|[k0 vs0] d IH]; simpl; [done |].
  destruct (String.eqb k0 k); [done | exact IH].
Qed.

Lemma pop_missing d k : has_key d k = false → pop d k = d.
Proof.
  unfold has_key, pop. induction d as [|[k0 vs0] d IH]; simpl; [done |].
  destruct (String.eqb k0 k); simpl; [done |]. intros H. by rewrite IH.
Qed.

Lemma setlist_same d k : has_key d k = true → NoDup d.*1 → setlist d k (getlist d k) = d.
Proof.
  unfold has_key. induction d as [|[k0 vs0] d IH]; simpl; [done |].
  destruct (String.eqb_spec k0 k) as [-> | Hne]; simpl; [done |].
  intros H Hnd. apply NoDup_cons in Hnd as [_ Hnd]. by rewrite IH.
Qed.

Lemma kwarg_missing {V} (kwargs : list (string * V)) k : k ∉ kwargs.*1 → kwarg kwargs k = None.
Proof.
  induction kwargs as [|[k0 v0] kwargs IH]; simpl; [done |].
  intros Hnot. apply not_elem_of_cons in Hnot as [Hne Hnot].
  destruct (String.eqb_spec k0 k); [done | by apply IH].
Qed.

Lemma kwarg_elem {V} (kwargs : list (string * V)) k v :
  NoDup kwargs.*1 → (k, v) ∈ kwargs → kwarg kwargs k = Some v.
Proof.
  induction kwargs as [|[k0 v0] kwargs IH]; simpl; intros Hnd Hin;
    [by apply elem_of_nil in Hin |].
  apply NoDup_cons in Hnd as [Hk0 Hnd].
  apply elem_of_cons in Hin as [[= <- <-] | Hin]; [by rewrite String.eqb_refl |].
  destruct (String.eqb_spec k0 k) as [-> | Hne]; [| by apply IH].
  exfalso. apply Hk0. apply list_elem_of_fmap. by exists (k, v).
Qed.

(** ** Loops over the keywords touch one key each *)

Lemma for_each_keywise {V X} (obs : QueryDict → string → X)
    (body : QueryDict → string * V → outcome QueryDict) (upd : V → X → X) :
  (∀ d kv, ∃ d', body d kv = Return d'
                 ∧ ∀ k', obs d' k'
                         = if String.eqb (fst kv) k' then upd (snd kv) (obs d (fst kv))
                           else obs d k') →
  ∀ kwargs GET,
    NoDup kwargs.*1 →
    ∃ updated,
      for_each body kwargs GET = Return updated
      ∧ ∀ k, obs updated k
             = match kwarg kwargs k with
               | Some v => upd v (obs GET k)
               | None => obs GET k
               end.
Proof.
  intros Hbody kwargs. induction kwargs as [|[k0 v0] kwargs IH]; intros GET Hnd.
  - exists GET. by split.
  - apply NoDup_cons in Hnd as [Hk0 Hnd]. simpl.
    destruct (Hbody GET (k0, v0)) as (d1 & -> & Hd1). simpl in *.
    destruct (IH d1 Hnd) as (updated & -> & Hupdated).
    exists updated. split; [done |]. intros k. rewrite Hupdated, !Hd1.
    destruct (String.eqb_spec k0 k) as [<- | Hne].
    + by rewrite (kwarg_missing kwargs k0 Hk0).
    + by destruct (kwarg kwargs k) as [v|].
Qed.

Lemma for_each_pure {A S} (step : S → A → S) (items : list A) (s : S) :
  for_each (λ s x, Return (step s x)) items s = Return (fold_left step items s).
Proof. revert s. induction items as [|x items IH]; intros s; [done |]. simpl. apply IH. Qed.

Lemma fold_keywise {V X} (obs : QueryDict → string → X)
    (step : QueryDict → string * V → QueryDict) (upd : V → X → X) :
  (∀ d kv k', obs (step d kv) k'
              = if String.eqb (fst kv) k' then upd (snd kv) (obs d (fst kv)) else obs d k') →
  ∀ kwargs GET,
    NoDup kwargs.*1 →
    ∀ k, obs (fold_left step kwargs GET) k
         = match kwarg kwargs k with
           | Some v => upd v (obs GET k)
           | None => obs GET k
           end.
Proof.
  intros Hstep kwargs GET Hnd.
  destruct (for_each_keywise obs (λ s x, Return (step s x)) upd) with (kwargs := kwargs)
    (GET := GET) as (updated & Hrun & Hobs); [| done |].
  - intros d kv. exists (step d kv). by split.
  - rewrite for_each_pure in Hrun. by injection Hrun as <-.
Qed.

(** ** [qt] *)

Lemma qt_step_getlist d (kv : string * option string) k' :
  getlist (match snd kv with
           | Some v => setlist d (fst kv) [v]
           | None => pop d (fst kv)
           end) k'
  = if String.eqb (fst kv) k'
    then (λ (v : option string) (_ : list string), match v with Some v => [v] | None => [] end)
           (snd kv) (getlist d (fst kv))
    else getlist d k'.
Proof. destruct kv as [k [v|]]; simpl; [apply getlist_setlist | apply getlist_pop]. Qed.

Lemma qt_step_has_key d (kv : string * option string) k' :
  has_key (match snd kv with
           | Some v => setlist d (fst kv) [v]
           | None => pop d (fst kv)
           end) k'
  = if String.eqb (fst kv) k'
    then (λ (v : option string) (_ : bool), match v with Some _ => true | None => false end)
           (snd kv) (has_key d (fst kv))
    else has_key d k'.
Proof. destruct kv as [k [v|]]; simpl; [apply has_key_setlist | apply has_key_pop]. Qed.

(** X19: after [qt], a key given with a value has exactly that one value, a
    key given as [None] is gone, and every key that is not a keyword keeps
    its values. *)
Theorem qt_sets_and_unsets (GET : QueryDict) (kwargs : list (string * option string))
    (k : string) :
  NoDup kwargs.*1 →
  getlist (qt_updated GET kwargs) k
  = match kwarg kwargs k with
    | Some (Some v) => [v]
    | Some None => []
    | None => getlist GET k
    end
  ∧ has_key (qt_updated GET kwargs) k
    = match kwarg kwargs k with
      | Some (Some _) => true
      | Some None => false
      | None => has_key GET k
      end.
Proof.
  intros Hnd. unfold qt_updated. split.
  - rewrite (fold_keywise getlist _ _ qt_step_getlist kwargs GET Hnd k).
    by destruct (kwarg kwargs k) as [[v|]|].
  - rewrite (fold_keywise has_key _ _ qt_step_has_key kwargs GET Hnd k).
    by destruct (kwarg kwargs k) as [[v|]|].
Qed.

Lemma qt_sets_and_unsets_witness :
  getlist (qt_updated sample_GET [("cat", None); ("page", Some "2")]) "page" = ["2"]
  ∧ has_key (qt_updated sample_GET [("cat", None); ("page", Some "2")]) "page" = true.
Proof.
  apply (qt_sets_and_unsets sample_GET [("cat", None); ("page", Some "2")] "page").
  compute_done.
Defined.

Lemma NoDup_setlist d k vs : NoDup d.*1 → NoDup (setlist d k vs).*1.
Proof.
  induction d as [|[k0 vs0] d IH]; simpl; intros Hnd.
  - apply NoDup_singleton.
  - apply NoDup_cons in Hnd as [Hk0 Hnd].
    destruct (String.eqb_spec k0 k) as [-> | Hne]; simpl; apply NoDup_cons.
    + by split.
    + split; [| by apply IH]. intros Hin. apply has_key_spec in Hin.
      rewrite has_key_setlist in Hin.
      destruct (String.eqb_spec k k0) as [-> | _]; [done |].
      by apply has_key_spec in Hin.
Qed.

Lemma NoDup_pop d k : NoDup d.*1 → NoDup (pop d k).*1.
Proof.
  unfold pop. induction d as [|[k0 vs0] d IH]; simpl; intros Hnd; [done |].
  apply NoDup_cons in Hnd as [Hk0 Hnd].
  destruct (String.eqb k0 k); simpl; [by apply IH |].
  apply NoDup_cons. split; [| by apply IH].
  intros Hin. apply Hk0. apply list_elem_of_fmap in Hin as (kv & -> & Hin).
  apply list_elem_of_In, filter_In in Hin as [Hin _].
  apply list_elem_of_fmap. exists kv. split; [done | by apply list_elem_of_In].
Qed.

Lemma NoDup_qt_updated GET kwargs : NoDup GET.*1 → NoDup (qt_updated GET kwargs).*1.
Proof.
  unfold qt_updated. revert GET.
  induction kwargs as [|[k [v|]] kwargs IH]; intros GET Hnd; simpl; [done | |].
  - by apply IH, NoDup_setlist.
  - by apply IH, NoDup_pop.
Qed.

Lemma fold_left_fixed {A S} (step : S → A → S) (items : list A) (s : S) :
  (∀ x, x ∈ items → step s x = s) → fold_left step items s = s.
Proof.
  induction items as [|x items IH]; intros Hfix; [done |].
  simpl. rewrite (Hfix x) by apply list_elem_of_here.
  apply IH. intros y Hy. apply Hfix. by apply list_elem_of_further.
Qed.

(** X20: [qt] is idempotent: applied with the same keywords to the dictionary
    it produced, it leaves that dictionary, and so the query string, as it
    is. *)
Theorem qt_idempotent (GET : QueryDict) (kwargs : list (string * option string)) :
  NoDup GET.*1 →
  NoDup kwargs.*1 →
  qt_updated (qt_updated GET kwargs) kwargs = qt_updated GET kwargs.
Proof.
  intros HGET Hnd.
  pose proof (NoDup_qt_updated GET kwargs HGET) as Hupdated.
  unfold qt_updated at 1. apply fold_left_fixed. intros [k v] Hin. simpl.
  destruct (qt_sets_and_unsets GET kwargs k Hnd) as [Hlist Hkey].
  rewrite (kwarg_elem kwargs k v Hnd Hin) in Hlist, Hkey.
  destruct v as [v|].
  - rewrite <- Hlist. by apply setlist_same.
  - by apply pop_missing.
Qed.

Lemma qt_idempotent_witness :
  qt_updated (qt_updated sample_GET [("cat", None); ("page", Some "2")])
    [("cat", None); ("page", Some "2")]
  = qt_updated sample_GET [("cat", None); ("page", Some "2")].
Proof.
  apply (qt_idempotent sample_GET [("cat", None); ("page", Some "2")]); compute_done.
Defined.

(** ** [qt_nth] *)

Lemma index_of_nonneg len nth :
  (0 ≤ nth)%Z → (nth < Z.of_nat len)%Z → index_of len nth = Some (Z.to_nat nth).
Proof.
  intros H0 Hlt. unfold index_of.
  rewrite (proj2 (Z.leb_le 0 nth) H0). by rewrite (proj2 (Z.ltb_lt _ _) Hlt).
Qed.

(** X21: with a non-negative [nth], [qt_nth] never raises: for every keyword
    it replaces the value at position [nth] of the key's list when the list
    is that long, and otherwise appends the value at the end, without
    padding; keys that are not keywords keep their values. *)
Theorem qt_nth_replaces_or_appends (GET : QueryDict) (nth : Z)
    (kwargs : list (string * string)) :
  (0 ≤ nth)%Z →
  NoDup kwargs.*1 →
  ∃ updated,
    qt_nth_updated GET (Some nth) kwargs = Return updated
    ∧ ∀ k, getlist updated k
           = match kwarg kwargs k with
             | Some v =>
                 if (nth <? Z.of_nat (length (getlist GET k)))%Z
                 then <[Z.to_nat nth := v]> (getlist GET k)
                 else (getlist GET k ++ [v])%list
             | None => getlist GET k
             end.
Proof.
  intros Hnth Hnd. unfold qt_nth_updated.
  apply (for_each_keywise getlist _
           (λ v current,
              if (nth <? Z.of_nat (length current))%Z
              then <[Z.to_nat nth := v]> current
              else (current ++ [v])%list)); [| done].
  intros d [k v]. simpl.
  destruct (nth <? Z.of_nat (length (getlist d k)))%Z eqn:Hlt.
  - unfold setitem. rewrite index_of_nonneg by (done || by apply Z.ltb_lt). simpl.
    eexists. split; [done |]. intros k'. apply getlist_setlist.
  - simpl. eexists. split; [done |]. intros k'. apply getlist_setlist.
Qed.

Lemma qt_nth_replaces_or_appends_witness :
  ∃ updated,
    qt_nth_updated sample_GET (Some 5%Z) [("cat", "c")] = Return updated
    ∧ ∀ k, getlist updated k
           = match kwarg [("cat", "c")] k with
             | Some v =>
                 if (5 <? Z.of_nat (length (getlist sample_GET k)))%Z
                 then <[Z.to_nat 5 := v]> (getlist sample_GET k)
                 else (getlist sample_GET k ++ [v])%list
             | None => getlist sample_GET k
             end.
Proof.
  apply (qt_nth_replaces_or_appends sample_GET 5 [("cat", "c")]); [lia | compute_done].
Defined.

Lemma index_of_negative len nth :
  (nth < 0)%Z →
  index_of len nth
  = if (0 <=? nth + Z.of_nat len)%Z then Some (Z.to_nat (nth + Z.of_nat len)) else None.
Proof.
  intros Hneg. unfold index_of.
  by rewrite (proj2 (Z.leb_gt 0 nth) Hneg).
Qed.

(** X22: with a negative [nth], [qt_nth] counts from the end of each list and
    raises an index error exactly when some keyword's key has fewer than
    [-nth] values, in particular when the key is missing; it never raises
    the key error once [nth] is given. *)
Theorem qt_nth_negative (GET : QueryDict) (nth : Z) (kwargs : list (string * string)) :
  (nth < 0)%Z →
  (qt_nth_updated GET (Some nth) kwargs = Throw IndexError
   ↔ ∃ kv, kv ∈ kwargs ∧ (Z.of_nat (length (getlist GET (fst kv))) < - nth)%Z)
  ∧ qt_nth_updated GET (Some nth) kwargs ≠ Throw KeyError.
Proof.
  intros Hneg. unfold qt_nth_updated. revert GET.
  induction kwargs as [|[k v] kwargs IH]; intros GET; simpl.
  - split; [| done]. split; [done | intros (kv & Hin & _); by apply elem_of_nil in Hin].
  - assert ((nth <? Z.of_nat (length (getlist GET k)))%Z = true) as ->
      by (apply Z.ltb_lt; lia).
    unfold setitem. rewrite index_of_negative by done.
    destruct (0 <=? nth + Z.of_nat (length (getlist GET k)))%Z eqn:Hfit; simpl.
    + apply Z.leb_le in Hfit.
      set (d1 := setlist GET k _).
      assert (Hlen : ∀ k', length (getlist d1 k') = length (getlist GET k')).
      { intros k'. subst d1. rewrite getlist_setlist.
        destruct (String.eqb_spec k k') as [<- | _]; [apply length_insert | done]. }
      destruct (IH d1) as [Hthrow Hkey]. split; [| done].
      rewrite Hthrow. split.
      * intros (kv & Hin & Hshort). exists kv. rewrite Hlen in Hshort.
        split; [by apply list_elem_of_further | done].
      * intros (kv & Hin & Hshort). apply elem_of_cons in Hin as [-> | Hin].
        -- simpl in Hshort. lia.
        -- exists kv. by rewrite Hlen.
    + apply Z.leb_gt in Hfit. split; [| done]. split; [| done].
      intros _. exists (k, v). split; [apply list_elem_of_here | simpl; lia].
Qed.

Lemma qt_nth_negative_witness :
  (qt_nth_updated sample_GET (Some (-2)%Z) [("cat", "c"); ("q", "y")] = Throw IndexError
   ↔ ∃ kv, kv ∈ [("cat", "c"); ("q", "y")]
           ∧ (Z.of_nat (length (getlist sample_GET (fst kv))) < - (-2))%Z)
  ∧ qt_nth_updated sample_GET (Some (-2)%Z) [("cat", "c"); ("q", "y")] ≠ Throw KeyError.
Proof.
  apply (qt_nth_negative sample_GET (-2) [("cat", "c"); ("q", "y")]). lia.
Defined.

(** ** [qt_rm_nth], [qt_rm], [qt_append] and [qt_contains] *)

Lemma getlist_has_key d k : getlist d k ≠ [] → has_key d k = true.
Proof.
  intros Hne. destruct (has_key d k) eqn:Hkey; [done |].
  by rewrite getlist_missing in Hne.
Qed.

(** X23: with a non-negative [nth], [qt_rm_nth] never raises: it deletes the
    value at position [nth] from the list of every keyword whose value prints
    as 1 and whose list is that long, and leaves every other list as it is;
    no key is added and none is removed, so a key whose last value is deleted
    stays with an empty list. *)
Theorem qt_rm_nth_deletes (GET : QueryDict) (nth : Z) (kwargs : list (string * string)) :
  (0 ≤ nth)%Z →
  NoDup kwargs.*1 →
  ∃ updated,
    qt_rm_nth_updated GET (Some nth) kwargs = Return updated
    ∧ (∀ k, getlist updated k
            = match kwarg kwargs k with
              | Some v =>
                  if String.eqb v "1" && (nth <? Z.of_nat (length (getlist GET k)))%Z
                  then delete (Z.to_nat nth) (getlist GET k)
                  else getlist GET k
              | None => getlist GET k
              end)
    ∧ ∀ k, has_key updated k = has_key GET k.
Proof.
  intros Hnth Hnd. unfold qt_rm_nth_updated.
  match goal with |- context [for_each ?b _ _] => set (body := b) end.
  assert (Hbody : ∀ d (kv : string * string),
    ∃ d',
      body d kv = Return d'
      ∧ (∀ k', getlist d' k'
               = if String.eqb (fst kv) k'
                 then (λ v current,
                         if String.eqb v "1" && (nth <? Z.of_nat (length current))%Z
                         then delete (Z.to_nat nth) current
                         else current) (snd kv) (getlist d (fst kv))
                 else getlist d k')
      ∧ ∀ k', has_key d' k' = has_key d k').
  { intros d [k v]. subst body. simpl. destruct (String.eqb v "1"); simpl.
    - destruct (nth <? Z.of_nat (length (getlist d k)))%Z eqn:Hlt.
      + unfold list_pop. rewrite index_of_nonneg by (done || by apply Z.ltb_lt). simpl.
        eexists. split; [done |]. split.
        * intros k'. apply getlist_setlist.
        * intros k'. rewrite has_key_setlist.
          destruct (String.eqb_spec k k') as [<- | _]; [| done].
          symmetry. apply getlist_has_key. apply Z.ltb_lt in Hlt.
          intros Hnil. rewrite Hnil in Hlt. simpl in Hlt. lia.
      + exists d. split; [done |]. split; [| done].
        intros k'. by destruct (String.eqb_spec k k') as [<- | _].
    - exists d. split; [done |]. split; [| done].
      intros k'. by destruct (String.eqb_spec k k') as [<- | _]. }
  destruct (for_each_keywise getlist body
              (λ v current,
                 if String.eqb v "1" && (nth <? Z.of_nat (length current))%Z
                 then delete (Z.to_nat nth) current
                 else current)) with (kwargs := kwargs) (GET := GET)
    as (updated & Hrun & Hget); [| done |].
  { intros d kv. destruct (Hbody d kv) as (d' & ? & ? & _). by exists d'. }
  destruct (for_each_keywise has_key body (λ (_ : string) (b : bool), b))
    with (kwargs := kwargs) (GET := GET) as (updated' & Hrun' & Hkey); [| done |].
  { intros d kv. destruct (Hbody d kv) as (d' & ? & _ & Hsame). exists d'.
    split; [done |]. intros k'. rewrite Hsame.
    by destruct (String.eqb_spec (fst kv) k') as [<- | _]. }
  rewrite Hrun in Hrun'. injection Hrun' as <-.
  exists updated. split; [done |]. split; [done |].
  intros k. rewrite Hkey. by destruct (kwarg kwargs k).
Qed.

Lemma qt_rm_nth_deletes_witness :
  ∃ updated,
    qt_rm_nth_updated sample_GET (Some 0%Z) [("q", "1"); ("cat", "0")] = Return updated
    ∧ (∀ k, getlist updated k
            = match kwarg [("q", "1"); ("cat", "0")] k with
              | Some v =>
                  if String.eqb v "1" && (0 <? Z.of_nat (length (getlist sample_GET k)))%Z
                  then delete (Z.to_nat 0) (getlist sample_GET k)
                  else getlist sample_GET k
              | None => getlist sample_GET k
              end)
    ∧ ∀ k, has_key updated k = has_key sample_GET k.
Proof.
  apply (qt_rm_nth_deletes sample_GET 0 [("q", "1"); ("cat", "0")]); [lia | compute_done].
Defined.

Lemma pairs_setlist_nil d k : NoDup d.*1 → pairs (setlist d k []) = pairs (pop d k).
Proof.
  unfold pairs, pop. induction d as [|[k0 vs0] d IH]; simpl; intros Hnd; [done |].
  apply NoDup_cons in Hnd as [Hk0 Hnd].
  destruct (String.eqb_spec k0 k) as [-> | Hne]; simpl.
  - f_equal. symmetry. f_equal. apply (pop_missing d k).
    destruct (has_key d k) eqn:Hkey; [| done].
    by apply has_key_spec in Hkey.
  - by rewrite IH.
Qed.

(** X24: deleting the only value of a key with [qt_rm_nth] prints the same
    query string as removing the key with [qt_rm]: the key is left with an
    empty list, and a key without values does not show in the encoded
    string. *)
Theorem qt_rm_nth_last_value (encode : string → string → string) (GET : QueryDict)
    (k x : string) :
  NoDup GET.*1 →
  getlist GET k = [x] →
  qt_rm_nth encode GET (Some 0%Z) [(k, "1")] = Return (qt_rm encode GET [k]).
Proof.
  intros Hnd Hx. unfold qt_rm_nth, qt_rm, qt_rm_nth_updated, qt_rm_updated. simpl.
  rewrite Hx. simpl. unfold urlencode. by rewrite pairs_setlist_nil.
Qed.

Lemma qt_rm_nth_last_value_witness :
  qt_rm_nth (λ k v, k ++ "=" ++ v) sample_GET (Some 0%Z) [("q", "1")]
  = Return (qt_rm (λ k v, k ++ "=" ++ v) sample_GET ["q"]).
Proof.
  apply (qt_rm_nth_last_value (λ k v, k ++ "=" ++ v) sample_GET "q" "x");
    [compute_done | reflexivity].
Defined.

Lemma pairs_filter_keys (p : string → bool) (d : QueryDict) :
  pairs (List.filter (λ kv, p (fst kv)) d) = List.filter (λ kv, p (fst kv)) (pairs d).
Proof.
  unfold pairs. induction d as [|[k0 vs0] d IH]; simpl; [done |].
  assert (Hhead : List.filter (λ kv : string * string, p (fst kv)) (map (pair k0) vs0)
                  = if p k0 then map (pair k0) vs0 else []).
  { destruct (p k0) eqn:Hp.
    - apply forallb_filter_id, forallb_forall.
      intros kv Hkv. by apply in_map_iff in Hkv as (v & <- & _).
    - apply filter_none. intros kv Hkv.
      by apply list_elem_of_fmap in Hkv as (v & -> & _). }
  rewrite List.filter_app, <- IH, Hhead.
  by destruct (p k0).
Qed.

Lemma qt_rm_updated_filter GET args :
  qt_rm_updated GET args
  = List.filter (λ kv, negb (existsb (String.eqb (fst kv)) args)) GET.
Proof.
  unfold qt_rm_updated. revert GET.
  induction args as [|a args IH]; intros GET; simpl.
  - symmetry. by apply forallb_filter_id, forallb_forall.
  - rewrite IH. unfold pop. clear IH.
    induction GET as [|[k0 vs0] GET IHG]; simpl; [done |].
    destruct (String.eqb k0 a); simpl; [done |].
    destruct (existsb (String.eqb k0) args); simpl; by rewrite IHG.
Qed.

(** X25: [qt_rm] prints exactly the key-value pairs of the request whose key
    is not among its arguments, in their order; naming a key twice or naming
    a missing key changes nothing. *)
Theorem qt_rm_keeps_other_pairs (GET : QueryDict) (args : list string) :
  pairs (qt_rm_updated GET args)
  = List.filter (λ kv, negb (existsb (String.eqb (fst kv)) args)) (pairs GET).
Proof.
  rewrite qt_rm_updated_filter.
  apply (pairs_filter_keys (λ k, negb (existsb (String.eqb k) args))).
Qed.

Lemma append_step_getlist d (kv : string * string) k' :
  getlist (setlist d (fst kv) (getlist d (fst kv) ++ [snd kv])%list) k'
  = if String.eqb (fst kv) k'
    then (λ (v : string) current, (current ++ [v])%list) (snd kv) (getlist d (fst kv))
    else getlist d k'.
Proof. apply getlist_setlist. Qed.

(** X26: [qt_append] adds each keyword's value at the end of the key's list,
    a missing key getting a list of one value, and leaves the keys that are
    not keywords as they are. *)
Theorem qt_append_appends (GET : QueryDict) (kwargs : list (string * string)) (k : string) :
  NoDup kwargs.*1 →
  getlist (qt_append_updated GET kwargs) k
  = match kwarg kwargs k with
    | Some v => (getlist GET k ++ [v])%list
    | None => getlist GET k
    end.
Proof.
  intros Hnd. unfold qt_append_updated.
  apply (fold_keywise getlist _ _ append_step_getlist kwargs GET Hnd k).
Qed.

Lemma qt_append_appends_witness :
  getlist (qt_append_updated sample_GET [("cat", "c"); ("page", "2")]) "cat"
  = ["a"; "b"; "c"].
Proof.
  apply (qt_append_appends sample_GET [("cat", "c"); ("page", "2")] "cat"). compute_done.
Defined.

(** X27: [qt_contains] never raises and answers true exactly when the value
    is one of the values of the key in the request; the test that the key is
    present is what keeps it from raising, since the membership test in
    [getlist(key, list)] taken alone raises a type error exactly when the key
    is missing. *)
Theorem qt_contains_never_raises (GET : QueryDict) (key value : string) :
  (∃ b, qt_contains GET key value = Return b ∧ (b = true ↔ value ∈ getlist GET key))
  ∧ (in_getlist GET key value = Throw TypeError ↔ key ∉ GET.*1).
Proof.
  unfold qt_contains, in_getlist. split.
  - destruct (has_key GET key) eqn:Hkey.
    + eexists. split; [done |]. apply existsb_string_eqb.
    + exists false. split; [done |]. rewrite (getlist_missing GET key Hkey).
      split; [done | intros Hin; by apply elem_of_nil in Hin].
  - rewrite <- has_key_spec. by destruct (has_key GET key).
Qed.
End CustomTagsFacts.
